(** * pysb: release resolution and caching engine

    A shallow embedding of [fetch], [get_versions] and
    [python_install_parser] of [pysb.py], with the regular expressions of
    [get_versions] run by a small backtracking matcher. *)

From Stdlib Require Import List Ascii String ZArith Lia Bool Sorted Permutation.
From stdpp Require Import gmap strings list fin_maps sets.

Import ListNotations.
Local Open Scope Z_scope.
Local Open Scope string_scope.
Local Open Scope list_scope.

(** ** Python [str] values

    A [str] is a [string]; the matcher works on its list of characters. *)

Definition chars (s : string) : list ascii := list_ascii_of_string s.
Definition str (l : list ascii) : string := string_of_list_ascii l.

(** ** Regular expressions ([re])

    The fragment of Python's [re] syntax the two patterns of
    [get_versions] use. *)

Module Re.

Inductive cclass :=
| CDigit                 (* \d *)
| CNot (c : ascii)       (* [^c] *)
| CDot.                  (* . : anything but a newline *)

Definition newline : ascii := "010"%char.

Definition is_digit (a : ascii) : bool :=
  ((48 <=? nat_of_ascii a) && (nat_of_ascii a <=? 57))%nat.

Definition cc_mem (c : cclass) (a : ascii) : bool :=
  match c with
  | CDigit => is_digit a
  | CNot x => negb (Ascii.eqb a x)
  | CDot => negb (Ascii.eqb a newline)
  end.

Inductive regex :=
| Bol                                  (* ^ *)
| Eol                                  (* $ *)
| Lit (s : string)                     (* literal characters *)
| Plus (c : cclass)                    (* c+ , greedy *)
| Star (c : cclass)                    (* c* , greedy *)
| Group (name : option string) (r : regex)   (* (...) and (?P<name>...) *)
| Opt (r : regex)                      (* r? , greedy *)
| Seq (r1 r2 : regex).

(** The named groups of a pattern, in order. *)
Fixpoint group_names (r : regex) : list string :=
  match r with
  | Group (Some n) r' => n :: group_names r'
  | Group None r' => group_names r'
  | Opt r' => group_names r'
  | Seq r1 r2 => group_names r1 ++ group_names r2
  | _ => []
  end.

(** [strip_prefix p s] is [Some r] when [s = p ++ r]. *)
Fixpoint strip_prefix (p s : list ascii) : option (list ascii) :=
  match p, s with
  | [], _ => Some s
  | a :: p', b :: s' => if Ascii.eqb a b then strip_prefix p' s' else None
  | _ :: _, [] => None
  end.

(** All ways to take a run of characters of the class from the front of
    [s], the longest first, the empty run last. *)
Fixpoint runs (p : ascii -> bool) (s : list ascii)
  : list (list ascii * list ascii) :=
  match s with
  | [] => [([], [])]
  | a :: s' =>
      if p a
      then map (fun mr => (a :: fst mr, snd mr)) (runs p s') ++ [([], s)]
      else [([], s)]
  end.

(** A match in progress: the text consumed by the (sub)pattern, the text
    left, and the groups that took part so far. *)
Record mres := MRes {
  taken : list ascii;
  left : list ascii;
  caps : gmap string string
}.

(** [match_all r bol s g]: every way [r] matches at the front of [s], in
    the order the backtracking matcher tries them. [bol] says that [s]
    starts at position 0 of the subject. *)
Fixpoint match_all (r : regex) (bol : bool) (s : list ascii)
    (g : gmap string string) : list mres :=
  match r with
  | Bol => if bol then [MRes [] s g] else []
  | Eol =>
      match s with
      | [] => [MRes [] s g]
      | [a] => if Ascii.eqb a newline then [MRes [] s g] else []
      | _ => []
      end
  | Lit p =>
      match strip_prefix (chars p) s with
      | Some s' => [MRes (chars p) s' g]
      | None => []
      end
  | Plus c =>
      match s with
      | a :: s' =>
          if cc_mem c a
          then map (fun mr => MRes (a :: fst mr) (snd mr) g) (runs (cc_mem c) s')
          else []
      | [] => []
      end
  | Star c =>
      map (fun mr => MRes (fst mr) (snd mr) g) (runs (cc_mem c) s)
  | Group name r' =>
      map (fun m =>
             match name with
             | Some n => MRes (taken m) (left m) (<[n := str (taken m)]> (caps m))
             | None => m
             end)
          (match_all r' bol s g)
  | Opt r' => match_all r' bol s g ++ [MRes [] s g]
  | Seq r1 r2 =>
      flat_map
        (fun m1 =>
           map (fun m2 => MRes (taken m1 ++ taken m2) (left m2) (caps m2))
               (match_all r2
                  (bol && match taken m1 with [] => true | _ => false end)
                  (left m1) (caps m1)))
        (match_all r1 bol s g)
  end.

(** [re.compile(r).match(s)]: the first successful match at position 0,
    [None] when there is none. *)
Definition re_match (r : regex) (s : string) : option mres :=
  head (match_all r true (chars s) ∅).

(** [m.groupdict()]: every named group of the pattern, [None] for a group
    that took no part in the match. *)
Definition groupdict (r : regex) (m : mres) : gmap string (option string) :=
  list_to_map (map (fun n => (n, caps m !! n)) (group_names r)).

End Re.

Import Re.

(** ** [get_versions]: the translation tables and the two patterns *)

Abbreviation pydict := (gmap string (option string)).

(** [{...}.get(x, x)] for a table with [str] values. *)
Definition machine_map : gmap string string :=
  list_to_map [("x86_64", "x86_64"); ("amd64", "x86_64");
               ("arm64", "aarch64"); ("aarch64", "aarch64")].

Definition libc_map : gmap string (option string) :=
  list_to_map [("glibc", Some "gnu"); ("", None); ("native", None)].

Definition system_map : gmap string string :=
  list_to_map [("linux", "linux"); ("darwin", "darwin")].

Definition map_get {V} (m : gmap string V) (k : string) (d : V) : V :=
  default d (m !! k).

Fixpoint seqs (rs : list regex) : regex :=
  match rs with
  | [] => Lit ""
  | [r] => r
  | r :: rs' => Seq r (seqs rs')
  end.

(** The primary pattern: the literal "cpython-", the group [version]
    (three runs of digits separated by dots), a plus sign, the group [date]
    (digits), then the groups [arch], [vendor] and [os] (runs of characters
    other than a hyphen), each after a hyphen, a last hyphen and the group
    [tail] (the rest of the line), between the anchors. *)
Definition exp : regex :=
  seqs [Bol; Lit "cpython-";
        Group (Some "version")
          (seqs [Plus CDigit; Lit "."; Plus CDigit; Lit "."; Plus CDigit]);
        Lit "+";
        Group (Some "date") (Plus CDigit); Lit "-";
        Group (Some "arch") (Plus (CNot "-")); Lit "-";
        Group (Some "vendor") (Plus (CNot "-")); Lit "-";
        Group (Some "os") (Plus (CNot "-")); Lit "-";
        Group (Some "tail") (Star CDot); Eol].

(** The pattern of the tail,
    "^((?P<libc>[^-]+)-)?(?P<variant>[^-]+)\.tar\.gz$". *)
Definition variant_exp : regex :=
  seqs [Bol;
        Opt (Group None (seqs [Group (Some "libc") (Plus (CNot "-")); Lit "-"]));
        Group (Some "variant") (Plus (CNot "-"));
        Lit ".tar.gz"; Eol].


(** ** Python values and exceptions *)

Abbreviation pyval := (option string).

Inductive exn :=
| KeyError | TypeError | AttributeError | ValueError
| URLError | ReadFailed | JSONDecodeError | FileNotFoundError
| NotADirectoryError.

Inductive outcome (A : Type) :=
| Ok (a : A)
| Raise (e : exn).
Arguments Ok {A} a.
Arguments Raise {A} e.

Definition obind {A B} (x : outcome A) (f : A -> outcome B) : outcome B :=
  match x with
  | Ok a => f a
  | Raise e => Raise e
  end.

Notation "x <-! c ; k" := (obind c (fun x => k))
  (at level 100, c at next level, right associativity).

(** [d[k]] *)
Definition getitem (d : pydict) (k : string) : outcome pyval :=
  match d !! k with
  | Some v => Ok v
  | None => Raise KeyError
  end.

(** Using a value where only a [str] will do. *)
Definition as_str (e : exn) (v : pyval) : outcome string :=
  match v with
  | Some s => Ok s
  | None => Raise e
  end.

(** [s.replace(a, b)] for one-character [a] and [b]. *)
Definition replace_char (a b : ascii) (s : string) : string :=
  str (map (fun c => if Ascii.eqb c a then b else c) (chars s)).

(** [sub in s] *)
Fixpoint infix_of (sub s : list ascii) : bool :=
  match strip_prefix sub s with
  | Some _ => true
  | None =>
      match s with
      | [] => false
      | _ :: s' => infix_of sub s'
      end
  end.

Definition contains (sub s : string) : bool := infix_of (chars sub) (chars s).

(** [s.split(sep)] for a one-character separator. *)
Fixpoint split_on (sep : ascii) (s : list ascii) : list (list ascii) :=
  match s with
  | [] => [[]]
  | a :: s' =>
      if Ascii.eqb a sep then [] :: split_on sep s'
      else match split_on sep s' with
           | w :: ws => (a :: w) :: ws
           | [] => [[a]]
           end
  end.

(** [int(s)] on a non-empty run of decimal digits; anything else is taken
    to raise [ValueError] (Python also accepts signs, blanks and
    underscores, which a version group never holds). A run of more digits
    than [sys.get_int_max_str_digits()], 4300 unless configured, raises
    [ValueError] as well. *)
Definition digit_val (a : ascii) : Z := Z.of_nat (nat_of_ascii a) - 48.

Definition int_max_str_digits : Z := 4300.

Definition py_int (s : list ascii) : outcome Z :=
  match s with
  | [] => Raise ValueError
  | _ :: _ =>
      if forallb is_digit s
      then if (Z.of_nat (length s) <=? int_max_str_digits)%Z
           then Ok (fold_left (fun acc a => 10 * acc + digit_val a) s 0)
           else Raise ValueError
      else Raise ValueError
  end.

Fixpoint omapM {A B} (f : A -> outcome B) (l : list A) : outcome (list B) :=
  match l with
  | [] => Ok []
  | a :: l' => b <-! f a; bs <-! omapM f l'; Ok (b :: bs)
  end.

(** ** [get_versions], after the manifest is loaded *)

(** One element of [release["assets"]]. *)
Record asset := Asset {
  asset_name : string;
  browser_download_url : string
}.

(** [frozenset(libc_map.get(x, x) for x in libc)], then [None] when that
    set is [frozenset({None})]. *)
Definition norm_libc (libc : gset string) : option (gset pyval) :=
  let libc' : gset pyval := set_map (fun x => map_get libc_map x (Some x)) libc in
  if decide (libc' = {[None]}) then None else Some libc'.

(** [frozenset(system_map.get(x, x) for x in system)] *)
Definition norm_system (system : gset string) : gset pyval :=
  set_map (fun x => Some (map_get system_map x x)) system.

(** [frozenset(machine_map.get(x, x) for x in machine)] *)
Definition norm_machine (machine : gset string) : gset pyval :=
  set_map (fun x => Some (map_get machine_map x x)) machine.

(** [x or "native"] *)
Definition or_native (v : pyval) : string :=
  match v with
  | None => "native"
  | Some s => if String.eqb s "" then "native" else s
  end.

(** The body of the loop over the assets: [Ok None] is [continue],
    [Ok (Some info)] is [versions.append(info)]. *)
Definition asset_entry (libc : option (gset pyval)) (system machine : gset pyval)
    (stripped : bool) (a : asset) : outcome (option (gmap string string)) :=
  match re_match exp (asset_name a) with
  | None => Ok None
  | Some m =>
      let release_info := groupdict exp m in
      arch <-! getitem release_info "arch";
      if negb (bool_decide (arch ∈ machine)) then Ok None else
      os <-! getitem release_info "os";
      if negb (bool_decide (os ∈ system)) then Ok None else
      tail <-! getitem release_info "tail";
      let release_info := delete "tail" release_info in
      tail <-! as_str TypeError tail;
      match re_match variant_exp tail with
      | None => Ok None
      | Some tail_match =>
          let release_info := groupdict variant_exp tail_match ∪ release_info in
          l <-! getitem release_info "libc";
          if match libc with
             | Some libc => negb (bool_decide (l ∈ libc))
             | None => false
             end
          then Ok None else
          v <-! getitem release_info "variant";
          v <-! as_str AttributeError v;
          let variant := replace_char "_" " " v in
          let release_info := <["variant" := Some variant]> release_info in
          if stripped && negb (contains "stripped" variant) then Ok None else
          if negb stripped && contains "stripped" variant then Ok None else
          let release_info := <["libc" := Some (or_native l)]> release_info in
          let release_info : gmap string string := default "N/A" <$> release_info in
          let release_info :=
            <["url" := browser_download_url a]> release_info in
          version <-! as_str KeyError (release_info !! "version");
          arch <-! as_str KeyError (release_info !! "arch");
          vendor <-! as_str KeyError (release_info !! "vendor");
          os <-! as_str KeyError (release_info !! "os");
          libc <-! as_str KeyError (release_info !! "libc");
          variant <-! as_str KeyError (release_info !! "variant");
          let install_name :=
            version +:+ "-" +:+ arch +:+ "-" +:+ vendor +:+ "-" +:+ os +:+ "-"
            +:+ libc +:+ "-" +:+ replace_char " " "_" variant in
          Ok (Some (<["install_name" := install_name]> release_info))
      end
  end.

(** The loop: the entries of the assets that are kept, in manifest order. *)
Fixpoint collect (libc : option (gset pyval)) (system machine : gset pyval)
    (stripped : bool) (assets : list asset) : outcome (list (gmap string string)) :=
  match assets with
  | [] => Ok []
  | a :: assets' =>
      e <-! asset_entry libc system machine stripped a;
      rest <-! collect libc system machine stripped assets';
      Ok (match e with Some info => info :: rest | None => rest end)
  end.

(** The sort key, [list(map(int, item["version"].split(".")))]. *)
Definition version_key (item : gmap string string) : outcome (list Z) :=
  version <-! as_str KeyError (item !! "version");
  omapM py_int (split_on "." (chars version)).

(** [a < b] on lists of integers. *)
Fixpoint list_ltb (a b : list Z) : bool :=
  match a, b with
  | [], [] => false
  | [], _ :: _ => true
  | _ :: _, [] => false
  | x :: a', y :: b' =>
      if (x <? y)%Z then true else if (y <? x)%Z then false else list_ltb a' b'
  end.

(** [sorted(l, key=...)]: each key is computed once, and the sort is
    stable; a stable insertion sort returns the same list. *)
Fixpoint insert_by {A} (x : list Z * A) (l : list (list Z * A)) :=
  match l with
  | [] => [x]
  | y :: l' => if list_ltb (fst y) (fst x) then y :: insert_by x l' else x :: l
  end.

Definition sort_by {A} (l : list (list Z * A)) : list (list Z * A) :=
  foldr insert_by [] l.

Definition sorted {A} (key : A -> outcome (list Z)) (l : list A) : outcome (list A) :=
  keys <-! omapM key l;
  Ok (map snd (sort_by (combine keys l))).

(** [get_versions] from [assets = release["assets"]] on. *)
Definition get_versions_from (libc system machine : gset string)
    (stripped : bool) (assets : list asset) : outcome (list (gmap string string)) :=
  let libc := norm_libc libc in
  let system := norm_system system in
  let machine := norm_machine machine in
  versions <-! collect libc system machine stripped assets;
  sorted version_key versions.

(** ** The file system, the clock and the network *)

Record file := File {
  content : string;
  mtime : Z
}.

(** What a GET of a URL meets: [urlopen] raises, or a response is read by
    [shutil.copyfileobj], one [response.read(COPY_BUFSIZE)] after the
    other. [blocks] are the blocks the reads that return hand over, in
    order; after them a read returns no byte and the copy ends
    ([complete]), or a read raises ([http.client.IncompleteRead] for a
    chunked body, or the error of the socket: [ReadFailed] stands for
    either). Bytes that arrive before a read raises are
    lost with it: they are in no block. A connection closed early under a
    [Content-Length] ends the body with no exception: the response is then
    [complete], with fewer bytes. *)
Inductive response :=
| Refused
| Body (blocks : list string) (complete : bool).

Definition COPY_BUFSIZE : Z := 64 * 1024.

Definition block_len (b : string) : Z := Z.of_nat (String.length b).

(** A read returns [COPY_BUFSIZE] bytes unless the body ends in it, so
    every block but the last is full, the last is not empty, and a block
    followed by a read that raises is full. *)
Fixpoint blocks_ok (complete : bool) (blocks : list string) : bool :=
  match blocks with
  | [] => true
  | [b] =>
      (0 <? block_len b)%Z
      && (if complete then (block_len b <=? COPY_BUFSIZE)%Z
          else (block_len b =? COPY_BUFSIZE)%Z)
  | b :: rest => (block_len b =? COPY_BUFSIZE)%Z && blocks_ok complete rest
  end.

(** The responses [fetch] can meet. *)
Definition receivable (r : response) : bool :=
  match r with
  | Refused => true
  | Body blocks complete => blocks_ok complete blocks
  end.

Inductive log_record :=
| Downloading (url : string)
| NoVersionsFound
| MultipleVersionsFound (urls : list string)
| AlreadyInstalled (version install_path : string)
| Extracting
| Installing
| Installed (version install_path : string).

(** Times are counted in ticks of the clock. *)
Record world := World {
  files : gmap string file;
  dirs : gset string;
  clock : Z;
  net : string -> response;
  requests : list string;
  log : list log_record
}.

Definition set_files (f : gmap string file -> gmap string file) (w : world) : world :=
  World (f (files w)) (dirs w) (clock w) (net w) (requests w) (log w).

Definition mkdir (p : string) (w : world) : world :=
  World (files w) ({[p]} ∪ dirs w) (clock w) (net w) (requests w) (log w).

Definition request (url : string) (w : world) : world :=
  World (files w) (dirs w) (clock w) (net w) (requests w ++ [url]) (log w).

Definition logging (r : log_record) (w : world) : world :=
  World (files w) (dirs w) (clock w) (net w) (requests w) (log w ++ [r]).

(** [p.exists()] *)
Definition path_exists (p : string) (w : world) : bool :=
  bool_decide (p ∈ dirs w) || bool_decide (is_Some (files w !! p)).

(** [a / b] on paths. *)
Definition path_join (a b : string) : string := a +:+ "/" +:+ b.
Infix "//" := path_join (at level 40, left associativity).

Definition concat_str (l : list string) : string := fold_right String.append "" l.

(** Arguments of [pysb versions install]. *)
Record install_args := InstallArgs {
  arg_version : string;
  arg_arch : string;
  arg_libc : string;
  non_stripped : bool
}.

Section Pysb.

(** The configuration and the library functions taken as given:
    [str(uuid.uuid3(uuid.NAMESPACE_URL, url))], [platform.system().lower()],
    [json.load(fp)["assets"]] (with its failures, a manifest of another
    shape among them), the members of a tar archive and [json.dumps]. *)
Variable CACHE_PATH VERSIONS_PATH RELEASES_URL : string.
Variable uuid3_url : string -> string.
Variable platform_system : string.
Variable json_assets : string -> outcome (list asset).
Variable tar_members : string -> outcome (list (string * option string)).
Variable json_dumps : gmap string string -> string.

Definition cache_dir (url : string) : string :=
  let obj := uuid3_url url in
  CACHE_PATH // "cache" // substring 0 2 obj // substring 2 2 obj.

Definition cache_path (url : string) : string :=
  cache_dir url // uuid3_url url.

(** [cache_path.exists() and cache_path.stat().st_mtime > (time.time() - cache)] *)
Definition cache_fresh (url : string) (cache : Z) (w : world) : bool :=
  match files w !! cache_path url with
  | Some f => mtime f >? clock w - cache
  | None => false
  end.

(** [fetch(url, cache)]; the stream returned is given by its bytes. *)
Definition fetch (url : string) (cache : Z) (w : world) : world * outcome string :=
  let w := mkdir (cache_dir url) w in
  let '(w, r) :=
    if negb (cache_fresh url cache w) then
      let w := request url (logging (Downloading url) w) in
      match net w url with
      | Refused => (w, Raise URLError)
      | Body blocks complete =>
          (* [open("wb")] empties the file, [copyfileobj] writes each
             block a read returns *)
          let w := set_files (<[cache_path url := File (concat_str blocks) (clock w)]>) w in
          (w, if complete then Ok tt else Raise ReadFailed)
      end
    else (w, Ok tt) in
  match r with
  | Raise e => (w, Raise e)
  | Ok _ =>
      match files w !! cache_path url with
      | Some f => (w, Ok (content f))
      | None => (w, Raise FileNotFoundError)
      end
  end.

(** [get_versions(libc, system, machine, stripped)] *)
Definition get_versions (libc system machine : gset string) (stripped : bool)
    (w : world) : world * outcome (list (gmap string string)) :=
  let '(w, r) := fetch RELEASES_URL (3600 * 4) w in
  (w, release <-! r;
      assets <-! json_assets release;
      get_versions_from libc system machine stripped assets).

(** [filter(lambda item: item["version"] == version, versions)] *)
Fixpoint filter_version (version : string) (versions : list (gmap string string))
  : outcome (list (gmap string string)) :=
  match versions with
  | [] => Ok []
  | item :: rest =>
      v <-! as_str KeyError (item !! "version");
      rest' <-! filter_version version rest;
      Ok (if String.eqb v version then item :: rest' else rest')
  end.

(** The members of the archive below [python/], with their paths from
    there on. A member is a path with the bytes of a file, or with [None]
    for a directory. *)
Definition under_python (members : list (string * option string))
  : list (string * option string) :=
  omap (fun m =>
          match strip_prefix (chars "python/") (chars (fst m)) with
          | Some rest => Some (str rest, snd m)
          | None => None
          end) members.

(** [(extract_path / "python").iterdir()] after [extractall]: the
    directory is there when the archive lists it or something below it. *)
Definition python_dir (members : list (string * option string))
  : outcome (list (string * option string)) :=
  if existsb (fun m => String.eqb (fst m) "python"
                       && match snd m with Some _ => true | None => false end) members
  then Raise NotADirectoryError
  else
    match under_python members with
    | [] =>
        if existsb (fun m => String.eqb (fst m) "python") members
        then Ok []
        else Raise FileNotFoundError
    | below => Ok below
    end.

(** [shutil.move] of what is below [python/] to below [install_path]; of
    two members with one path, the later one is what [extractall] left. *)
Definition moved_files (install_path : string)
    (below : list (string * option string)) (clock : Z) : gmap string file :=
  list_to_map
    (rev (omap (fun m => match snd m with
                         | Some bytes => Some (install_path // fst m, File bytes clock)
                         | None => None
                         end) below)).

Definition moved_dirs (install_path : string)
    (below : list (string * option string)) : gset string :=
  list_to_set
    (omap (fun m => match snd m with
                    | Some _ => None
                    | None => Some (install_path // fst m)
                    end) below).

Definition add_dirs (d : gset string) (w : world) : world :=
  World (files w) (d ∪ dirs w) (clock w) (net w) (requests w) (log w).

(** [python_install_parser(args)]: the exit code, or the exception that
    [main] turns into exit code 1. [tar_members] stands for
    [tarfile.open(fileobj=...)] and the members it finds; [extractall]
    into the fresh temporary directory is taken to succeed, and the
    temporary directory is gone when the function returns. *)
Definition python_install_parser (args : install_args) (w : world)
  : world * outcome Z :=
  let '(w, r) :=
    get_versions {[arg_libc args]} {[platform_system]} {[arg_arch args]}
                 (negb (non_stripped args)) w in
  match (vs <-! r; filter_version (arg_version args) vs) with
  | Raise e => (w, Raise e)
  | Ok [] => (logging NoVersionsFound w, Ok 1)
  | Ok ((_ :: _ :: _) as versions) =>
      (logging (MultipleVersionsFound
                  (map (fun v => default "" (v !! "url")) versions)) w, Ok 1)
  | Ok [ver] =>
      let version := default "" (ver !! "version") in
      let install_path := VERSIONS_PATH // default "" (ver !! "install_name") in
      if path_exists install_path w
      then (logging (AlreadyInstalled version install_path) w, Ok 1)
      else
        let w := mkdir install_path w in
        let '(w, archive) := fetch (default "" (ver !! "url")) (3600 * 4) w in
        match (a <-! archive; tar_members a) with
        | Raise e => (w, Raise e)
        | Ok members =>
            let w := logging Extracting w in
            let w := logging Installing w in
            match python_dir members with
            | Raise e => (w, Raise e)
            | Ok below =>
                let w := add_dirs (moved_dirs install_path below) w in
                let w := set_files
                           (fun fs => moved_files install_path below (clock w) ∪ fs) w in
                let w := set_files
                           (<[install_path // "version.json" :=
                                File (json_dumps ver) (clock w)]>) w in
                (logging (Installed version install_path) w, Ok 0)
            end
        end
  end.

End Pysb.

(** * Vocabulary of the statements *)


(** Whether the text after a partial match still starts at position 0. *)
Definition at_bol (bol : bool) (m : mres) : bool :=
  bol && match taken m with [] => true | _ => false end.

(** A non-empty run of decimal digits. *)
Definition digits (l : list ascii) : Prop :=
  l <> [] /\ forallb is_digit l = true.

(** A non-empty run of characters other than a hyphen. *)
Definition token (l : list ascii) : Prop :=
  l <> [] /\ forallb (cc_mem (CNot "-")) l = true.

(** Text without a hyphen. *)
Definition no_hyphen (l : list ascii) : Prop :=
  forallb (cc_mem (CNot "-")) l = true.

(** Text without a line break. *)
Definition one_line (l : list ascii) : Prop :=
  forallb (cc_mem CDot) l = true.

(** What the anchor at the end lets follow: nothing, or one last line break. *)
Definition at_end (l : list ascii) : Prop := l = [] \/ l = [newline].

(** The dictionary of the groups of the primary pattern. *)
Definition exp_groups (version date arch vendor os tail : string) : pydict :=
  <["version" := Some version]> (<["date" := Some date]> (<["arch" := Some arch]>
    (<["vendor" := Some vendor]> (<["os" := Some os]> (<["tail" := Some tail]> ∅))))).

(** The dictionary of the groups of the pattern of the tail. *)
Definition variant_groups (libc : pyval) (variant : string) : pydict :=
  <["libc" := libc]> (<["variant" := Some variant]> ∅).

(** What [asset_entry] builds from the parts of a name. *)
Definition merged_groups (version date arch vendor os : string) (libc : pyval)
    (variant : string) : pydict :=
  <["version" := Some version]> (<["date" := Some date]> (<["arch" := Some arch]>
    (<["vendor" := Some vendor]> (<["os" := Some os]>
      (<["libc" := libc]> (<["variant" := Some variant]> ∅)))))).

Definition entry (version date arch vendor os libc variant url : string)
  : gmap string string :=
  <["install_name" :=
      version +:+ "-" +:+ arch +:+ "-" +:+ vendor +:+ "-" +:+ os +:+ "-"
      +:+ libc +:+ "-" +:+ replace_char " " "_" variant]>
  (<["url" := url]> (<["version" := version]> (<["date" := date]>
    (<["arch" := arch]> (<["vendor" := vendor]> (<["os" := os]>
      (<["libc" := libc]> (<["variant" := variant]> ∅)))))))).

Definition pre_entry (version date arch vendor os libc variant url : string)
  : gmap string string :=
  <["url" := url]> (<["version" := version]> (<["date" := date]>
    (<["arch" := arch]> (<["vendor" := vendor]> (<["os" := os]>
      (<["libc" := libc]> (<["variant" := variant]> ∅))))))).

Definition finish_entry (libc : option (gset pyval)) (stripped : bool)
    (version date arch vendor os : string) (l : pyval) (v url : string)
  : outcome (option (gmap string string)) :=
  if match libc with
     | Some libc => negb (bool_decide (l ∈ libc))
     | None => false
     end
  then Ok None else
  let variant := replace_char "_" " " v in
  if stripped && negb (contains "stripped" variant) then Ok None else
  if negb stripped && contains "stripped" variant then Ok None else
  Ok (Some (entry version date arch vendor os (or_native l) variant url)).

Definition parsed_entry (libc : option (gset pyval)) (system machine : gset pyval)
    (stripped : bool) (version date arch vendor os : string) (l : pyval)
    (v url : string) : outcome (option (gmap string string)) :=
  if negb (bool_decide (Some arch ∈ machine)) then Ok None else
  if negb (bool_decide (Some os ∈ system)) then Ok None else
  finish_entry libc stripped version date arch vendor os l v url.

Definition opt_token (l : option (list ascii)) : list ascii :=
  match l with
  | Some l => l ++ chars "-"
  | None => []
  end.

Record name_parts (name : string) (v1 v2 v3 d a vd o : list ascii)
    (l : option (list ascii)) (v nl : list ascii) : Prop := {
  np_name :
    chars name =
      chars "cpython-" ++ v1 ++ chars "." ++ v2 ++ chars "." ++ v3 ++
      chars "+" ++ d ++ chars "-" ++ a ++ chars "-" ++ vd ++ chars "-" ++
      o ++ chars "-" ++ (opt_token l ++ v ++ chars ".tar.gz") ++ nl;
  np_v1 : digits v1;
  np_v2 : digits v2;
  np_v3 : digits v3;
  np_date : digits d;
  np_arch : token a;
  np_vendor : token vd;
  np_os : token o;
  np_libc : match l with Some l => token l /\ one_line l | None => True end;
  np_variant : token v;
  np_line : one_line v;
  np_end : at_end nl
}.

Definition version_of (v1 v2 v3 : list ascii) : string :=
  str (v1 ++ chars "." ++ v2 ++ chars "." ++ v3).

(** The order [sorted] leaves the keys in: no later key is below an earlier one. *)
Definition key_le {A} (x y : list Z * A) : Prop := list_ltb (fst y) (fst x) = false.

(** The number a run of digits writes. *)
Definition int_of (l : list ascii) : Z :=
  fold_left (fun acc a => 10 * acc + digit_val a)%Z l 0%Z.

(** The entries of [versions], and their order. *)
Definition is_entry (info : gmap string string) : Prop :=
  exists v1 v2 v3 date arch vendor os libc variant url,
    digits v1 /\ digits v2 /\ digits v3 /\
    info = entry (version_of v1 v2 v3) date arch vendor os libc variant url.

Fixpoint kept (libc : option (gset pyval)) (system machine : gset pyval)
    (stripped : bool) (assets : list asset) : list (gmap string string) :=
  match assets with
  | [] => []
  | a :: assets' =>
      match asset_entry libc system machine stripped a with
      | Ok (Some info) => info :: kept libc system machine stripped assets'
      | _ => kept libc system machine stripped assets'
      end
  end.

Definition version_tuple (item : gmap string string) : option (Z * Z * Z) :=
  match version_key item with
  | Ok [a; b; c] => Some (a, b, c)
  | _ => None
  end.

Definition tuple_le (x y : Z * Z * Z) : Prop :=
  let '(a, b, c) := x in
  let '(a', b', c') := y in
  (a < a' \/ (a = a' /\ (b < b' \/ (b = b' /\ c <= c'))))%Z.

Definition ascending (vs : list (gmap string string)) : Prop :=
  forall (i j : nat) vi vj, (i < j)%nat -> vs !! i = Some vi -> vs !! j = Some vj ->
    exists ti tj, version_tuple vi = Some ti /\ version_tuple vj = Some tj /\
                  tuple_le ti tj.

(** A key beside the item it was computed from. *)
Definition keyed (p : list Z * gmap string string) : Prop :=
  version_key (snd p) = Ok (fst p).

(** The parts the primary pattern finds. *)
Record exp_parts (name : string) (v1 v2 v3 d a vd o t nl : list ascii) : Prop := {
  ep_name :
    chars name =
      chars "cpython-" ++ v1 ++ chars "." ++ v2 ++ chars "." ++ v3 ++
      chars "+" ++ d ++ chars "-" ++ a ++ chars "-" ++ vd ++ chars "-" ++
      o ++ chars "-" ++ t ++ nl;
  ep_v1 : digits v1;
  ep_v2 : digits v2;
  ep_v3 : digits v3;
  ep_date : digits d;
  ep_arch : token a;
  ep_vendor : token vd;
  ep_os : token o;
  ep_tail : one_line t;
  ep_end : at_end nl
}.

(** The number of hyphens of a text, and an optional token. *)
Fixpoint hyphens (l : list ascii) : nat :=
  match l with
  | [] => 0
  | a :: l' => (if Ascii.eqb a "-" then 1 else 0) + hyphens l'
  end%nat.

Definition opt_is_token (l : option (list ascii)) : Prop :=
  match l with Some l => token l | None => True end.

(** The test on the libc of an asset. *)
Definition libc_ok (libc : option (gset pyval)) (l : pyval) : bool :=
  match libc with
  | Some libc => bool_decide (l ∈ libc)
  | None => true
  end.

(** Two asset names. *)
Definition src_tarball : string := "python-3.12.1-src.tar.gz".
Definition pgo_stripped_gnu : string :=
  "cpython-3.12.1+20240101-x86_64-unknown-linux-gnu-pgo_stripped.tar.gz".

(** Assets whose tokens the tables would translate. *)
Definition glibc_asset : asset :=
  Asset "cpython-3.12.1+20240101-x86_64-unknown-linux-glibc-pgo_stripped.tar.gz" "u".
Definition amd64_asset : asset :=
  Asset "cpython-3.12.1+20240101-amd64-unknown-linux-gnu-pgo_stripped.tar.gz" "u".

(** [libc_map.get(x, x)] *)
Definition libc_norm (x : string) : pyval := map_get libc_map x (Some x).

(** An asset with no libc token. *)
Definition darwin_asset : asset :=
  Asset "cpython-3.12.1+20240101-aarch64-apple-darwin-install_only_stripped.tar.gz" "u".

(** An older build, with a version that sorts after 3.12.1 as text. *)
Definition older_asset : asset :=
  Asset "cpython-3.9.18+20240101-x86_64-unknown-linux-gnu-pgo_stripped.tar.gz" "older-url".

(** Two assets that differ in libc only. *)
Definition gnu_asset : asset :=
  Asset "cpython-3.12.1+20240101-x86_64-unknown-linux-gnu-pgo_stripped.tar.gz" "gnu-url".
Definition musl_asset : asset :=
  Asset "cpython-3.12.1+20240101-x86_64-unknown-linux-musl-pgo_stripped.tar.gz" "musl-url".

(** The world after the request for [url] is sent. *)
Definition requested (cache_dir url : string) (w : world) : world :=
  request url (logging (Downloading url) (mkdir cache_dir w)).


(** A world with a cached copy of the URL "u", and a network that
    answers every request the same way; a block of [COPY_BUFSIZE] bytes. *)
Definition full_block : string :=
  str (repeat "x"%char (Z.to_nat COPY_BUFSIZE)).
Definition toy_uuid (url : string) : string := "abcdef-" +:+ url.
Definition toy_path : string := cache_path "/c" toy_uuid "u".
Definition toy_world (mtime0 : Z) (r : response) : world :=
  World {[toy_path := File "old" mtime0]} ∅ 1000 (fun _ => r) [] [].

(** The entries whose version is [version]. *)
Definition survivors (version : string) (vs : list (gmap string string))
  : list (gmap string string) :=
  List.filter
    (fun item => match item !! "version" with
                 | Some v => String.eqb v version
                 | None => false
                 end) vs.

Definition urls (vs : list (gmap string string)) : list string :=
  map (fun v => default "" (v !! "url")) vs.

(** Two builds of one version from two vendors, behind a toy decoder. *)
Definition vendor_a : asset :=
  Asset "cpython-3.12.1+20240101-x86_64-unknown-linux-gnu-pgo_stripped.tar.gz" "url-a".
Definition vendor_b : asset :=
  Asset "cpython-3.12.1+20240101-x86_64-pc-linux-gnu-pgo_stripped.tar.gz" "url-b".
Definition toy_json (body : string) : outcome (list asset) := Ok [vendor_a; vendor_b].
Definition toy_tar (archive : string) : outcome (list (string * option string)) := Ok [].
Definition toy_dumps (v : gmap string string) : string := "{}".
Definition toy_args : install_args := InstallArgs "3.12.1" "x86_64" "gnu" false.
Definition toy_start : world := World ∅ ∅ 1000 (fun _ => Body ["{}"] true) [] [].
Definition toy_resolved : world :=
  fst (fetch "/c" toy_uuid "manifest" (3600 * 4) toy_start).
Definition toy_versions : list (gmap string string) :=
  [entry "3.12.1" "20240101" "x86_64" "unknown" "linux" "gnu" "pgo stripped" "url-a";
   entry "3.12.1" "20240101" "x86_64" "pc" "linux" "gnu" "pgo stripped" "url-b"].


(** A manifest with one build, an archive with one file, and a world in
    which the build is installed already. *)
Definition toy_json1 (body : string) : outcome (list asset) := Ok [vendor_a].
Definition toy_tar1 (archive : string) : outcome (list (string * option string)) :=
  Ok [("python/bin/python3", Some "ELF")].

(** * Properties *)

(** ** Characters and lists of characters *)

Lemma chars_str l : chars (str l) = l.
Proof. apply list_ascii_of_string_of_list_ascii. Qed.

Lemma str_chars s : str (chars s) = s.
Proof. apply string_of_list_ascii_of_string. Qed.

Lemma chars_inj s1 s2 : chars s1 = chars s2 -> s1 = s2.
Proof. intros H. rewrite <- (str_chars s1), <- (str_chars s2). now rewrite H. Qed.

Lemma chars_append s1 s2 : chars (s1 +:+ s2) = chars s1 ++ chars s2.
Proof. induction s1 as [|a s1 IH]; simpl; [reflexivity | now rewrite IH]. Qed.

Lemma strip_prefix_spec p s r : strip_prefix p s = Some r <-> s = p ++ r.
Proof.
  revert s. induction p as [|a p IH]; intros s; simpl.
  - split; congruence.
  - destruct s as [|b s]; [split; discriminate |].
    destruct (Ascii.eqb_spec a b) as [->|Hne].
    + rewrite IH. split; congruence.
    + split; [discriminate | congruence].
Qed.

Lemma strip_prefix_app p r : strip_prefix p (p ++ r) = Some r.
Proof. now apply strip_prefix_spec. Qed.

Lemma runs_spec p s m r :
  In (m, r) (runs p s) <-> s = m ++ r /\ forallb p m = true.
Proof.
  revert m r. induction s as [|a s IH]; intros m r; simpl.
  - split.
    + intros [[= <- <-]|[]]. now split.
    + intros [H _]. symmetry in H. apply app_eq_nil in H as [-> ->]. now left.
  - destruct (p a) eqn:Hpa.
    + rewrite in_app_iff, in_map_iff. split.
      * intros [[[m' r'] [[= <- <-] Hin]]|[[= <- <-]|[]]].
        -- apply IH in Hin as [-> Hm]. simpl. now rewrite Hpa.
        -- now split.
      * intros [Hs Hm]. destruct m as [|b m]; simpl in *.
        -- right. left. now subst.
        -- injection Hs as <- ->. left. exists (m, r). split; [reflexivity |].
           apply IH. split; [reflexivity |]. now rewrite Hpa in Hm.
    + split.
      * intros [[= <- <-]|[]]. now split.
      * intros [Hs Hm]. destruct m as [|b m]; simpl in *.
        -- left. now subst.
        -- injection Hs as <- ->. now rewrite Hpa in Hm.
Qed.

(** ** The matcher, pattern by pattern *)

Lemma in_Bol bol s g m :
  In m (match_all Bol bol s g) <-> bol = true /\ m = MRes [] s g.
Proof.
  simpl. destruct bol; simpl; split.
  - intros [<-|[]]. now split.
  - intros [_ ->]. now left.
  - intros [].
  - intros [[=] _].
Qed.

Lemma in_Eol bol s g m :
  In m (match_all Eol bol s g) <-> (s = [] \/ s = [newline]) /\ m = MRes [] s g.
Proof.
  simpl. destruct s as [|a [|b s]]; simpl.
  - split; [intros [<-|[]]; auto | intros [_ ->]; now left].
  - destruct (Ascii.eqb_spec a newline) as [->|Hne]; simpl.
    + split; [intros [<-|[]]; auto | intros [_ ->]; now left].
    + split; [intros [] | intros [[[=]|[= ->]] _]; congruence].
  - split; [intros [] | intros [[[=]|[=]] _]].
Qed.

Lemma in_Lit p bol s g m :
  In m (match_all (Lit p) bol s g) <->
  exists r, s = chars p ++ r /\ m = MRes (chars p) r g.
Proof.
  simpl. destruct (strip_prefix (chars p) s) as [r|] eqn:E; simpl.
  - apply strip_prefix_spec in E. split.
    + intros [<-|[]]. eauto.
    + intros (r' & Hs & ->). left. f_equal. subst s. now apply app_inv_head in Hs.
  - split; [intros [] |]. intros (r & Hs & _).
    apply strip_prefix_spec in Hs. congruence.
Qed.

Lemma in_Star c bol s g m :
  In m (match_all (Star c) bol s g) <->
  s = taken m ++ left m /\ forallb (cc_mem c) (taken m) = true /\ caps m = g.
Proof.
  simpl. rewrite in_map_iff. split.
  - intros ([t l] & <- & Hin). apply runs_spec in Hin as [-> Ht]. simpl. auto.
  - intros (Hs & Ht & Hg). exists (taken m, left m). split.
    + destruct m; simpl in *. now subst.
    + now apply runs_spec.
Qed.

Lemma in_Plus c bol s g m :
  In m (match_all (Plus c) bol s g) <->
  s = taken m ++ left m /\ taken m <> [] /\
  forallb (cc_mem c) (taken m) = true /\ caps m = g.
Proof.
  simpl. destruct s as [|a s].
  - split; [intros [] |]. intros (Hs & Hne & _).
    symmetry in Hs. apply app_eq_nil in Hs as [? _]. contradiction.
  - destruct (cc_mem c a) eqn:Ha.
    + rewrite in_map_iff. split.
      * intros ([t l] & <- & Hin). apply runs_spec in Hin as [-> Ht]. simpl.
        rewrite Ha. repeat split; auto; discriminate.
      * intros (Hs & Hne & Ht & Hg). destruct m as [[|b t] l g']; simpl in *;
          [contradiction |].
        injection Hs as <- ->. exists (t, l). split; [now subst |].
        apply runs_spec. split; [reflexivity |]. now rewrite Ha in Ht.
    + split; [intros [] |]. intros (Hs & Hne & Ht & _).
      destruct (taken m) as [|b t]; [contradiction |]. simpl in *.
      injection Hs as <- _. now rewrite Ha in Ht.
Qed.

Lemma in_Group n r bol s g m :
  In m (match_all (Group (Some n) r) bol s g) <->
  exists m', In m' (match_all r bol s g) /\
             m = MRes (taken m') (left m') (<[n := str (taken m')]> (caps m')).
Proof.
  simpl. rewrite in_map_iff. split; intros (m' & H1 & H2); exists m'; auto.
Qed.

Lemma in_Group_anon r bol s g m :
  In m (match_all (Group None r) bol s g) <-> In m (match_all r bol s g).
Proof.
  simpl. rewrite in_map_iff. split.
  - now intros (m' & <- & H).
  - intros H. now exists m.
Qed.

Lemma in_Opt r bol s g m :
  In m (match_all (Opt r) bol s g) <->
  In m (match_all r bol s g) \/ m = MRes [] s g.
Proof.
  simpl. rewrite in_app_iff. simpl. intuition.
Qed.

Lemma in_Seq r1 r2 bol s g m :
  In m (match_all (Seq r1 r2) bol s g) <->
  exists m1 m2, In m1 (match_all r1 bol s g) /\
                In m2 (match_all r2 (at_bol bol m1) (left m1) (caps m1)) /\
                m = MRes (taken m1 ++ taken m2) (left m2) (caps m2).
Proof.
  simpl. rewrite in_flat_map. split.
  - intros (m1 & H1 & H2). apply in_map_iff in H2 as (m2 & <- & H2).
    exists m1, m2. auto.
  - intros (m1 & m2 & H1 & H2 & ->). exists m1. split; [assumption |].
    apply in_map_iff. exists m2. auto.
Qed.

Lemma re_match_In r s m : re_match r s = Some m -> In m (match_all r true (chars s) ∅).
Proof.
  unfold re_match. destruct (match_all r true (chars s) ∅) as [|m' l]; simpl.
  - discriminate.
  - intros [= ->]. now left.
Qed.

Lemma In_re_match r s m :
  In m (match_all r true (chars s) ∅) -> exists m', re_match r s = Some m'.
Proof.
  unfold re_match. destruct (match_all r true (chars s) ∅) as [|m' l]; simpl.
  - intros [].
  - intros _. now exists m'.
Qed.

(** ** The two patterns of [get_versions] *)

Ltac inv_step :=
  match goal with
  | H : In _ (match_all (Seq _ _) _ _ _) |- _ =>
      apply (proj1 (in_Seq _ _ _ _ _ _)) in H as (? & ? & ? & H & ->)
  | H : In _ (match_all Bol _ _ _) |- _ =>
      apply (proj1 (in_Bol _ _ _ _)) in H as [_ ->]
  | H : In _ (match_all Eol _ _ _) |- _ =>
      apply (proj1 (in_Eol _ _ _ _)) in H as [? ->]
  | H : In _ (match_all (Lit _) _ _ _) |- _ =>
      apply (proj1 (in_Lit _ _ _ _ _)) in H as (? & ? & ->)
  | H : In _ (match_all (Group (Some _) _) _ _ _) |- _ =>
      apply (proj1 (in_Group _ _ _ _ _ _)) in H as (? & H & ->)
  | H : In _ (match_all (Group None _) _ _ _) |- _ =>
      apply (proj1 (in_Group_anon _ _ _ _ _)) in H
  | H : In _ (match_all (Opt _) _ _ _) |- _ =>
      apply (proj1 (in_Opt _ _ _ _ _)) in H as [H| ->]
  | H : In ?m (match_all (Plus _) _ _ _) |- _ =>
      apply (proj1 (in_Plus _ _ _ _ _)) in H as (? & ? & ? & ?); destruct m;
      cbn [taken left caps] in *; subst
  | H : In ?m (match_all (Star _) _ _ _) |- _ =>
      apply (proj1 (in_Star _ _ _ _ _)) in H as (? & ? & ?); destruct m;
      cbn [taken left caps] in *; subst
  end.

Ltac inv_match := repeat (inv_step; cbn [taken left caps] in * ).

(** A name the primary pattern matches is made of the parts the groups
    hold. *)
Lemma exp_sound name m :
  re_match exp name = Some m ->
  exists v1 v2 v3 d a vd o t nl,
    chars name =
      chars "cpython-" ++ v1 ++ chars "." ++ v2 ++ chars "." ++ v3 ++
      chars "+" ++ d ++ chars "-" ++ a ++ chars "-" ++ vd ++ chars "-" ++
      o ++ chars "-" ++ t ++ nl /\
    digits v1 /\ digits v2 /\ digits v3 /\ digits d /\
    token a /\ token vd /\ token o /\ one_line t /\ at_end nl /\
    caps m =
      <["tail" := str t]> (<["os" := str o]> (<["vendor" := str vd]>
        (<["arch" := str a]> (<["date" := str d]>
          (<["version" := str (v1 ++ chars "." ++ v2 ++ chars "." ++ v3)]> ∅))))).
Proof.
  intros H. apply re_match_In in H.
  unfold exp in H. cbn [seqs] in H.
  inv_match.
  do 9 eexists. split; [eassumption |].
  unfold digits, token, one_line, at_end. auto 20.
Qed.

Lemma groupdict_exp m version date arch vendor os tail :
  caps m = <["tail" := tail]> (<["os" := os]> (<["vendor" := vendor]>
        (<["arch" := arch]> (<["date" := date]> (<["version" := version]> ∅))))) ->
  groupdict exp m = exp_groups version date arch vendor os tail.
Proof.
  intros H. unfold groupdict. rewrite H. vm_compute. reflexivity.
Qed.

Lemma variant_sound t m :
  re_match variant_exp t = Some m ->
  exists v nl, token v /\ at_end nl /\
    ((chars t = v ++ chars ".tar.gz" ++ nl /\ caps m = <["variant" := str v]> ∅) \/
     exists l, token l /\ chars t = l ++ chars "-" ++ v ++ chars ".tar.gz" ++ nl /\
               caps m = <["variant" := str v]> (<["libc" := str l]> ∅)).
Proof.
  intros H. apply re_match_In in H.
  unfold variant_exp in H. cbn [seqs] in H.
  inv_match.
  - exists taken0, x. unfold token, at_end. split; [auto|]. split; [auto|].
    right. exists taken1. auto.
  - exists taken0, x. unfold token, at_end. split; [auto|]. split; [auto|].
    left. auto.
Qed.

Lemma groupdict_variant0 m variant :
  caps m = <["variant" := variant]> ∅ ->
  groupdict variant_exp m = variant_groups None variant.
Proof.
  intros H. unfold groupdict. rewrite H. vm_compute. reflexivity.
Qed.

Lemma groupdict_variant1 m libc variant :
  caps m = <["variant" := variant]> (<["libc" := libc]> ∅) ->
  groupdict variant_exp m = variant_groups (Some libc) variant.
Proof.
  intros H. unfold groupdict. rewrite H. vm_compute. reflexivity.
Qed.

(** Building a match. *)
Lemma seq_intro r1 r2 bol s g t1 l1 g1 t2 l2 g2 :
  In (MRes t1 l1 g1) (match_all r1 bol s g) ->
  In (MRes t2 l2 g2) (match_all r2 (at_bol bol (MRes t1 l1 g1)) l1 g1) ->
  In (MRes (t1 ++ t2) l2 g2) (match_all (Seq r1 r2) bol s g).
Proof. intros H1 H2. apply in_Seq. exists (MRes t1 l1 g1), (MRes t2 l2 g2). auto. Qed.

Lemma lit_intro p bol r g :
  In (MRes (chars p) r g) (match_all (Lit p) bol (chars p ++ r) g).
Proof. apply in_Lit. eauto. Qed.

Lemma plus_intro c bol t l g :
  t <> [] -> forallb (cc_mem c) t = true ->
  In (MRes t l g) (match_all (Plus c) bol (t ++ l) g).
Proof. intros. apply in_Plus. simpl. auto. Qed.

Lemma group_intro n r bol s g t l g' :
  In (MRes t l g') (match_all r bol s g) ->
  In (MRes t l (<[n := str t]> g')) (match_all (Group (Some n) r) bol s g).
Proof. intros. apply in_Group. exists (MRes t l g'). auto. Qed.

Lemma eol_intro bol s g : at_end s -> In (MRes [] s g) (match_all Eol bol s g).
Proof. intros. apply in_Eol. auto. Qed.

Lemma variant_complete0 t v nl :
  token v -> at_end nl -> chars t = v ++ chars ".tar.gz" ++ nl ->
  exists m, re_match variant_exp t = Some m.
Proof.
  intros [Hv1 Hv2] Hnl Ht. eapply In_re_match. rewrite Ht.
  unfold variant_exp. cbn [seqs].
  eapply seq_intro; [apply in_Bol; split; reflexivity |]. cbn [taken left caps].
  eapply seq_intro; [apply in_Opt; right; reflexivity |]. cbn [taken left caps].
  eapply seq_intro; [apply group_intro, plus_intro; eassumption |]. cbn [taken left caps].
  eapply seq_intro; [apply lit_intro |]. cbn [taken left caps].
  apply eol_intro, Hnl.
Qed.

Lemma variant_complete1 t l v nl :
  token l -> token v -> at_end nl ->
  chars t = l ++ chars "-" ++ v ++ chars ".tar.gz" ++ nl ->
  exists m, re_match variant_exp t = Some m.
Proof.
  intros [Hl1 Hl2] [Hv1 Hv2] Hnl Ht. eapply In_re_match. rewrite Ht.
  unfold variant_exp. cbn [seqs].
  eapply seq_intro; [apply in_Bol; split; reflexivity |]. cbn [taken left caps].
  eapply seq_intro.
  { apply in_Opt; left. apply in_Group_anon.
    eapply seq_intro; [apply group_intro, plus_intro; eassumption |].
    cbn [taken left caps]. apply lit_intro. }
  cbn [taken left caps].
  eapply seq_intro; [apply group_intro, plus_intro; eassumption |]. cbn [taken left caps].
  eapply seq_intro; [apply lit_intro |]. cbn [taken left caps].
  apply eol_intro, Hnl.
Qed.

(** ** Uniqueness of the parts of a tail *)

Lemma at_end_unique P P' nl nl' :
  at_end nl -> at_end nl' ->
  P ++ chars ".tar.gz" ++ nl = P' ++ chars ".tar.gz" ++ nl' ->
  P = P' /\ nl = nl'.
Proof.
  intros [-> | ->] [-> | ->] H.
  - rewrite !app_nil_r in H. apply app_inv_tail in H. auto.
  - exfalso. rewrite app_nil_r in H.
    change (chars ".tar.gz") with (chars ".tar.g" ++ ["z"%char]) in H at 1.
    rewrite !app_assoc in H. apply app_inj_tail in H as [_ H]. discriminate.
  - exfalso. rewrite app_nil_r in H.
    change (chars ".tar.gz") with (chars ".tar.g" ++ ["z"%char]) in H at 2.
    rewrite !app_assoc in H. apply app_inj_tail in H as [_ H]. discriminate.
  - rewrite !app_assoc in H. apply app_inj_tail in H as [H _].
    apply app_inv_tail in H. auto.
Qed.

Lemma hyphen_split_unique l l' r r' :
  no_hyphen l -> no_hyphen l' ->
  l ++ "-"%char :: r = l' ++ "-"%char :: r' -> l = l' /\ r = r'.
Proof.
  unfold no_hyphen. revert l'. induction l as [|a l IH]; intros [|b l'] Hl Hl' H; simpl in *.
  - injection H as ->. auto.
  - injection H as <- _. discriminate.
  - injection H as -> _. discriminate.
  - injection H as -> H. apply andb_prop in Hl as [_ Hl], Hl' as [_ Hl'].
    destruct (IH _ Hl Hl' H) as [-> ->]. auto.
Qed.

Lemma no_hyphen_app l r : no_hyphen (l ++ r) <-> no_hyphen l /\ no_hyphen r.
Proof.
  unfold no_hyphen. rewrite forallb_app, andb_true_iff. reflexivity.
Qed.

Lemma no_hyphen_not_split v l r : no_hyphen v -> v <> l ++ "-"%char :: r.
Proof.
  intros Hv ->. apply no_hyphen_app in Hv as [_ Hv]. discriminate.
Qed.

(** ** The body of the loop of [get_versions] *)

Lemma asset_entry_no_exp libc system machine stripped a :
  re_match exp (asset_name a) = None ->
  asset_entry libc system machine stripped a = Ok None.
Proof. intros H. unfold asset_entry. now rewrite H. Qed.

Lemma asset_entry_no_variant libc system machine stripped a m
    version date arch vendor os tail :
  re_match exp (asset_name a) = Some m ->
  groupdict exp m = exp_groups version date arch vendor os tail ->
  re_match variant_exp tail = None ->
  asset_entry libc system machine stripped a = Ok None.
Proof.
  intros Hm Hgd Ht. unfold asset_entry. rewrite Hm, Hgd.
  change (getitem (exp_groups version date arch vendor os tail) "arch") with (Ok (Some arch)).
  cbn [obind].
  destruct (negb (bool_decide (Some arch ∈ machine))); [reflexivity|].
  change (getitem (exp_groups version date arch vendor os tail) "os") with (Ok (Some os)).
  cbn [obind].
  destruct (negb (bool_decide (Some os ∈ system))); [reflexivity|].
  change (getitem (exp_groups version date arch vendor os tail) "tail") with (Ok (Some tail)).
  cbn [obind as_str]. now rewrite Ht.
Qed.

Lemma asset_entry_parsed libc system machine stripped a m tm
    version date arch vendor os tail l v :
  re_match exp (asset_name a) = Some m ->
  groupdict exp m = exp_groups version date arch vendor os tail ->
  re_match variant_exp tail = Some tm ->
  groupdict variant_exp tm = variant_groups l v ->
  asset_entry libc system machine stripped a =
  parsed_entry libc system machine stripped version date arch vendor os l v
               (browser_download_url a).
Proof.
  intros Hm Hgd Ht Hgv. unfold asset_entry, parsed_entry, finish_entry.
  rewrite Hm, Hgd.
  change (getitem (exp_groups version date arch vendor os tail) "arch") with (Ok (Some arch)).
  cbn [obind].
  destruct (negb (bool_decide (Some arch ∈ machine))); [reflexivity|].
  change (getitem (exp_groups version date arch vendor os tail) "os") with (Ok (Some os)).
  cbn [obind].
  destruct (negb (bool_decide (Some os ∈ system))); [reflexivity|].
  change (getitem (exp_groups version date arch vendor os tail) "tail") with (Ok (Some tail)).
  cbn [obind as_str]. rewrite Ht, Hgv.
  replace (variant_groups l v ∪ delete "tail" (exp_groups version date arch vendor os tail))
    with (merged_groups version date arch vendor os l v) by (vm_compute; reflexivity).
  change (getitem (merged_groups version date arch vendor os l v) "libc") with (Ok l).
  cbn [obind].
  destruct (match libc with Some libc0 => negb (bool_decide (l ∈ libc0)) | None => false end);
    [reflexivity|].
  change (getitem (merged_groups version date arch vendor os l v) "variant") with (Ok (Some v)).
  cbn [obind as_str].
  destruct (stripped && negb (contains "stripped" (replace_char "_" " " v)))%bool; [reflexivity|].
  destruct (negb stripped && contains "stripped" (replace_char "_" " " v))%bool; [reflexivity|].
  generalize (replace_char "_" " " v). generalize (or_native l). intros ln vn.
  replace (<["url":=browser_download_url a]>
             (default "N/A" <$>
              <["libc":=Some ln]>
                (<["variant":=Some vn]> (merged_groups version date arch vendor os l v))))
    with (pre_entry version date arch vendor os ln vn (browser_download_url a))
    by (vm_compute; reflexivity).
  reflexivity.
Qed.

Lemma one_line_app l r : one_line (l ++ r) <-> one_line l /\ one_line r.
Proof. unfold one_line. rewrite forallb_app, andb_true_iff. reflexivity. Qed.

Lemma one_line_end t nl : one_line (t ++ nl) -> at_end nl -> nl = [].
Proof.
  intros H [-> | ->]; [reflexivity |].
  apply one_line_app in H as [_ H]. discriminate.
Qed.

Lemma asset_entry_cases a :
  (forall libc system machine stripped,
      asset_entry libc system machine stripped a = Ok None) \/
  exists v1 v2 v3 d ar vd o l v nl,
    name_parts (asset_name a) v1 v2 v3 d ar vd o l v nl /\
    forall libc system machine stripped,
      asset_entry libc system machine stripped a =
      parsed_entry libc system machine stripped (version_of v1 v2 v3) (str d)
        (str ar) (str vd) (str o) (option_map str l) (str v)
        (browser_download_url a).
Proof.
  destruct (re_match exp (asset_name a)) as [m|] eqn:Hm.
  2: { left. intros. now apply asset_entry_no_exp. }
  destruct (exp_sound _ _ Hm)
    as (v1 & v2 & v3 & d & ar & vd & o & t & nl & Hn & H1 & H2 & H3 & Hd & Ha & Hvd & Ho & Ht & Hnl & Hc).
  apply groupdict_exp in Hc.
  destruct (re_match variant_exp (str t)) as [tm|] eqn:Htm.
  2: { left. intros. eapply asset_entry_no_variant; eassumption. }
  right.
  destruct (variant_sound _ _ Htm) as (v & nl' & Hv & Hnl' & [[Hs Hcv] | (l & Hl & Hs & Hcv)]);
    rewrite chars_str in Hs.
  - assert (nl' = []) as ->.
    { apply (one_line_end (v ++ chars ".tar.gz")); [|assumption].
      rewrite <- app_assoc, <- Hs. assumption. }
    rewrite app_nil_r in Hs. subst t.
    exists v1, v2, v3, d, ar, vd, o, None, v, nl. split.
    + split; try assumption; try exact I.
      apply one_line_app in Ht as [Ht _]. exact Ht.
    + intros. eapply asset_entry_parsed; try eassumption.
      apply groupdict_variant0 in Hcv. exact Hcv.
  - assert (nl' = []) as ->.
    { apply (one_line_end (l ++ chars "-" ++ v ++ chars ".tar.gz")); [|assumption].
      replace ((l ++ chars "-" ++ v ++ chars ".tar.gz") ++ nl')
        with (l ++ chars "-" ++ v ++ chars ".tar.gz" ++ nl')
        by (now rewrite <- !app_assoc).
      rewrite <- Hs. assumption. }
    rewrite app_nil_r in Hs. subst t.
    exists v1, v2, v3, d, ar, vd, o, (Some l), v, nl. split.
    + split; try assumption.
      * unfold opt_token. rewrite <- !app_assoc. rewrite <- !app_assoc in Hn. exact Hn.
      * split; [assumption |]. apply one_line_app in Ht as [Ht _]. exact Ht.
      * apply one_line_app in Ht as [_ Ht]. apply one_line_app in Ht as [_ Ht].
        apply one_line_app in Ht as [Ht _]. exact Ht.
    + intros. eapply asset_entry_parsed; try eassumption.
      apply groupdict_variant1 in Hcv. exact Hcv.
Qed.

(** ** Sorting by key *)

Lemma list_ltb_irrefl a : list_ltb a a = false.
Proof.
  induction a as [|x a IH]; simpl; [reflexivity |].
  rewrite Z.ltb_irrefl. exact IH.
Qed.

Lemma list_ltb_asym a b : list_ltb a b = true -> list_ltb b a = false.
Proof.
  revert b. induction a as [|x a IH]; intros [|y b]; simpl; try congruence.
  destruct (Z.ltb_spec x y), (Z.ltb_spec y x); try congruence; try lia.
  apply IH.
Qed.

Lemma list_ltb_le_trans a b c :
  list_ltb b a = false -> list_ltb c b = false -> list_ltb c a = false.
Proof.
  revert b c. induction a as [|x a IH]; intros [|y b] [|z c]; simpl; try congruence.
  destruct (Z.ltb_spec y x), (Z.ltb_spec x y), (Z.ltb_spec z y), (Z.ltb_spec y z),
    (Z.ltb_spec z x), (Z.ltb_spec x z); try congruence; try lia.
  apply IH.
Qed.

Lemma insert_by_perm {A} (x : list Z * A) l : Permutation (insert_by x l) (x :: l).
Proof.
  induction l as [|y l IH]; simpl; [reflexivity |].
  destruct (list_ltb (fst y) (fst x)); [|reflexivity].
  rewrite IH. apply perm_swap.
Qed.

Lemma sort_by_perm {A} (l : list (list Z * A)) : Permutation (sort_by l) l.
Proof.
  induction l as [|x l IH]; simpl; [reflexivity |].
  rewrite insert_by_perm. now constructor.
Qed.

Lemma insert_by_sorted {A} (x : list Z * A) l :
  StronglySorted key_le l -> StronglySorted key_le (insert_by x l).
Proof.
  induction 1 as [|y l Hs IH Hy]; simpl.
  - repeat constructor.
  - destruct (list_ltb (fst y) (fst x)) eqn:E.
    + constructor; [assumption |].
      apply (Permutation_Forall (Permutation_sym (insert_by_perm x l))).
      constructor; [|assumption]. unfold key_le. now apply list_ltb_asym.
    + constructor; [now constructor |]. constructor; [exact E |].
      eapply Forall_impl; [exact Hy |]. intros z Hz. unfold key_le in *.
      eapply list_ltb_le_trans; eassumption.
Qed.

Lemma sort_by_sorted {A} (l : list (list Z * A)) : StronglySorted key_le (sort_by l).
Proof.
  induction l as [|x l IH]; simpl; [constructor |]. now apply insert_by_sorted.
Qed.

Lemma StronglySorted_lookup {A} (R : A -> A -> Prop) (l : list A) i j x y :
  StronglySorted R l -> (i < j)%nat -> l !! i = Some x -> l !! j = Some y -> R x y.
Proof.
  intros Hs. revert i j. induction Hs as [|a l Hs IH Ha]; intros i j Hij Hi Hj.
  - discriminate.
  - destruct j as [|j]; [lia |]. destruct i as [|i]; simpl in *.
    + injection Hi as <-. rewrite Forall_forall in Ha. apply Ha.
      eapply list_elem_of_lookup_2. exact Hj.
    + eapply IH; [|eassumption..]. lia.
Qed.

(** ** The sort key of an entry *)

Lemma py_int_digits l :
  digits l -> (Z.of_nat (length l) <= int_max_str_digits)%Z -> py_int l = Ok (int_of l).
Proof.
  intros [Hne Hd] Hlen. unfold py_int. destruct l as [|a l]; [contradiction |].
  rewrite Hd. apply Z.leb_le in Hlen. now rewrite Hlen.
Qed.

Lemma py_int_long l :
  digits l -> (int_max_str_digits < Z.of_nat (length l))%Z -> py_int l = Raise ValueError.
Proof.
  intros [Hne Hd] Hlen. unfold py_int. destruct l as [|a l]; [contradiction |].
  rewrite Hd. apply Z.leb_gt in Hlen. now rewrite Hlen.
Qed.

Lemma split_on_none sep l :
  forallb (fun a => negb (Ascii.eqb a sep)) l = true -> split_on sep l = [l].
Proof.
  induction l as [|a l IH]; simpl; [reflexivity |].
  intros H. apply andb_prop in H as [Ha Hl].
  destruct (Ascii.eqb a sep); [discriminate |]. now rewrite IH.
Qed.

Lemma split_on_app sep l r :
  forallb (fun a => negb (Ascii.eqb a sep)) l = true ->
  split_on sep (l ++ sep :: r) = l :: split_on sep r.
Proof.
  induction l as [|a l IH]; simpl.
  - intros _. now rewrite Ascii.eqb_refl.
  - intros H. apply andb_prop in H as [Ha Hl].
    destruct (Ascii.eqb a sep); [discriminate |]. now rewrite IH.
Qed.

Lemma digits_no_dot l :
  forallb is_digit l = true -> forallb (fun a => negb (Ascii.eqb a ".")) l = true.
Proof.
  intros H. rewrite forallb_forall in *. intros a Ha. specialize (H a Ha).
  destruct (Ascii.eqb_spec a "."); [subst; discriminate | reflexivity].
Qed.

Lemma version_key_split v1 v2 v3 date arch vendor os libc variant url :
  digits v1 -> digits v2 -> digits v3 ->
  version_key (entry (version_of v1 v2 v3) date arch vendor os libc variant url)
  = omapM py_int [v1; v2; v3].
Proof.
  intros [_ H1] [_ H2] [_ H3]. unfold version_key.
  change (entry (version_of v1 v2 v3) date arch vendor os libc variant url !! "version")
    with (Some (version_of v1 v2 v3)).
  cbn [as_str obind]. unfold version_of. rewrite chars_str.
  change (chars ".") with ["."%char]. cbn [app].
  rewrite split_on_app by (apply digits_no_dot, H1).
  rewrite split_on_app by (apply digits_no_dot, H2).
  rewrite split_on_none by (apply digits_no_dot, H3).
  reflexivity.
Qed.

Lemma version_key_entry v1 v2 v3 date arch vendor os libc variant url :
  digits v1 -> digits v2 -> digits v3 ->
  (Z.of_nat (length v1) <= int_max_str_digits)%Z ->
  (Z.of_nat (length v2) <= int_max_str_digits)%Z ->
  (Z.of_nat (length v3) <= int_max_str_digits)%Z ->
  version_key (entry (version_of v1 v2 v3) date arch vendor os libc variant url)
  = Ok [int_of v1; int_of v2; int_of v3].
Proof.
  intros H1 H2 H3 L1 L2 L3. rewrite version_key_split by assumption.
  cbn [omapM]. rewrite !py_int_digits by assumption. reflexivity.
Qed.

(** The key of an entry is three integers, unless a run of its version
    is too long for [int]. *)
Lemma version_key_entry_cases v1 v2 v3 date arch vendor os libc variant url :
  digits v1 -> digits v2 -> digits v3 ->
  version_key (entry (version_of v1 v2 v3) date arch vendor os libc variant url)
    = Ok [int_of v1; int_of v2; int_of v3] \/
  (version_key (entry (version_of v1 v2 v3) date arch vendor os libc variant url)
     = Raise ValueError /\
   (int_max_str_digits < Z.of_nat (length v1) \/
    int_max_str_digits < Z.of_nat (length v2) \/
    int_max_str_digits < Z.of_nat (length v3))%Z).
Proof.
  intros H1 H2 H3. rewrite version_key_split by assumption. cbn [omapM].
  destruct (Z.le_gt_cases (Z.of_nat (length v1)) int_max_str_digits) as [L1 | L1].
  2: { right. rewrite (py_int_long v1) by (assumption || lia). split; [reflexivity | lia]. }
  rewrite (py_int_digits v1) by assumption. cbn [obind].
  destruct (Z.le_gt_cases (Z.of_nat (length v2)) int_max_str_digits) as [L2 | L2].
  2: { right. rewrite (py_int_long v2) by (assumption || lia). split; [reflexivity | lia]. }
  rewrite (py_int_digits v2) by assumption. cbn [obind].
  destruct (Z.le_gt_cases (Z.of_nat (length v3)) int_max_str_digits) as [L3 | L3].
  2: { right. rewrite (py_int_long v3) by (assumption || lia). split; [reflexivity | lia]. }
  rewrite (py_int_digits v3) by assumption. cbn [obind]. now left.
Qed.

(** ** The loop of [get_versions] *)

Lemma parsed_entry_cases libc system machine stripped version date arch vendor os l v url :
  parsed_entry libc system machine stripped version date arch vendor os l v url = Ok None \/
  parsed_entry libc system machine stripped version date arch vendor os l v url =
    Ok (Some (entry version date arch vendor os (or_native l) (replace_char "_" " " v) url)).
Proof.
  unfold parsed_entry, finish_entry.
  repeat match goal with |- context [if ?b then _ else _] => destruct b end; auto.
Qed.

Lemma asset_entry_total libc system machine stripped a :
  exists r, asset_entry libc system machine stripped a = Ok r.
Proof.
  destruct (asset_entry_cases a) as [H | (v1 & v2 & v3 & d & ar & vd & o & l & v & nl & _ & H)];
    rewrite H; [eauto |].
  destruct (parsed_entry_cases libc system machine stripped (version_of v1 v2 v3)
              (str d) (str ar) (str vd) (str o) (option_map str l) (str v)
              (browser_download_url a)) as [-> | ->]; eauto.
Qed.

Lemma asset_entry_is_entry libc system machine stripped a info :
  asset_entry libc system machine stripped a = Ok (Some info) -> is_entry info.
Proof.
  destruct (asset_entry_cases a) as [H | (v1 & v2 & v3 & d & ar & vd & o & l & v & nl & Hp & H)];
    rewrite H; [discriminate |].
  destruct (parsed_entry_cases libc system machine stripped (version_of v1 v2 v3)
              (str d) (str ar) (str vd) (str o) (option_map str l) (str v)
              (browser_download_url a)) as [-> | ->]; [discriminate |].
  intros [= <-]. destruct Hp.
  exists v1, v2, v3, (str d), (str ar), (str vd), (str o), (or_native (option_map str l)),
    (replace_char "_" " " (str v)), (browser_download_url a).
  split; [assumption |]. split; [assumption |]. split; [assumption | reflexivity].
Qed.

Lemma collect_kept libc system machine stripped assets :
  collect libc system machine stripped assets =
  Ok (kept libc system machine stripped assets).
Proof.
  induction assets as [|a assets IH]; cbn [collect kept]; [reflexivity |].
  destruct (asset_entry_total libc system machine stripped a) as [r ->].
  cbn [obind]. rewrite IH. cbn [obind]. now destruct r.
Qed.

Lemma In_kept libc system machine stripped assets info :
  In info (kept libc system machine stripped assets) <->
  exists a, In a assets /\ asset_entry libc system machine stripped a = Ok (Some info).
Proof.
  induction assets as [|a assets IH]; cbn [kept In].
  - split; [intros [] | intros (? & [] & _)].
  - destruct (asset_entry libc system machine stripped a) as [[i|]|e] eqn:E; cbn [In];
      rewrite IH; split.
    + intros [<- | (b & Hb & Hi)]; eauto.
    + intros (b & [<- | Hb] & Hi); [left; congruence | eauto].
    + intros (b & Hb & Hi); eauto.
    + intros (b & [<- | Hb] & Hi); [congruence | eauto].
    + intros (b & Hb & Hi); eauto.
    + intros (b & [<- | Hb] & Hi); [congruence | eauto].
Qed.

Lemma kept_is_entry libc system machine stripped assets :
  Forall is_entry (kept libc system machine stripped assets).
Proof.
  apply List.Forall_forall. intros info Hin. apply In_kept in Hin as (a & _ & Ha).
  eapply asset_entry_is_entry, Ha.
Qed.

(** ** [sorted] on the entries *)

Lemma is_entry_key info :
  is_entry info ->
  (exists a b c, version_key info = Ok [a; b; c]) \/ version_key info = Raise ValueError.
Proof.
  intros (v1 & v2 & v3 & date & arch & vendor & os & libc & variant & url & H1 & H2 & H3 & ->).
  destruct (version_key_entry_cases v1 v2 v3 date arch vendor os libc variant url H1 H2 H3)
    as [-> | [-> _]]; eauto.
Qed.

Lemma omapM_keys l :
  Forall is_entry l ->
  (exists ks, omapM version_key l = Ok ks /\ map snd (combine ks l) = l /\
              Forall keyed (combine ks l)) \/
  (omapM version_key l = Raise ValueError /\
   exists info, In info l /\ version_key info = Raise ValueError).
Proof.
  induction 1 as [|x l Hx Hl IH]; cbn [omapM].
  - left. exists []. repeat split. constructor.
  - destruct (is_entry_key _ Hx) as [(a & b & c & Hk) | Hk]; rewrite Hk; cbn [obind].
    + destruct IH as [(ks & Hks & Hm & Hf) | (Hr & info & Hin & Hi)].
      * left. rewrite Hks. cbn [obind]. exists ([a; b; c] :: ks). split; [reflexivity |].
        cbn [combine map snd]. rewrite Hm. split; [reflexivity |].
        constructor; assumption.
      * right. rewrite Hr. cbn [obind]. split; [reflexivity |].
        exists info. split; [now right | assumption].
    + right. split; [reflexivity |]. exists x. split; [now left | assumption].
Qed.

Lemma lookup_map_snd {A B} (l : list (A * B)) (i : nat) y :
  map snd l !! i = Some y -> exists x, l !! i = Some (x, y).
Proof.
  revert i. induction l as [|[a b] l IH]; intros [|i]; simpl; try discriminate.
  - intros [= <-]. eauto.
  - apply IH.
Qed.

Lemma list_ltb_tuple a b c a' b' c' :
  list_ltb [a'; b'; c'] [a; b; c] = false -> tuple_le (a, b, c) (a', b', c').
Proof.
  unfold tuple_le. simpl.
  destruct (Z.ltb_spec a' a), (Z.ltb_spec a a'), (Z.ltb_spec b' b), (Z.ltb_spec b b'),
    (Z.ltb_spec c' c), (Z.ltb_spec c c'); try discriminate; intros _; lia.
Qed.

Lemma sorted_cases l :
  Forall is_entry l ->
  (exists vs, sorted version_key l = Ok vs /\ Permutation vs l /\ ascending vs) \/
  (sorted version_key l = Raise ValueError /\
   exists info, In info l /\ version_key info = Raise ValueError).
Proof.
  intros Hl. destruct (omapM_keys l Hl) as [(ks & Hks & Hm & Hf) | (Hr & Hex)].
  2: { right. unfold sorted. rewrite Hr. cbn [obind]. auto. }
  left. unfold sorted. rewrite Hks. cbn [obind]. eexists. split; [reflexivity |]. split.
  - rewrite <- Hm at 2. apply Permutation_map, sort_by_perm.
  - intros i j vi vj Hij Hi Hj.
    apply lookup_map_snd in Hi as (ki & Hi), Hj as (kj & Hj).
    pose proof (StronglySorted_lookup _ _ _ _ _ _ (sort_by_sorted (combine ks l)) Hij Hi Hj) as Hle.
    assert (Hall : Forall (fun p => keyed p /\ is_entry (snd p)) (sort_by (combine ks l))).
    { apply (Permutation_Forall (Permutation_sym (sort_by_perm _))).
      apply List.Forall_forall. intros [k x] Hin. split.
      - rewrite List.Forall_forall in Hf. now apply Hf.
      - rewrite List.Forall_forall in Hl. apply Hl. rewrite <- Hm.
        apply (in_map snd) in Hin. exact Hin. }
    rewrite List.Forall_forall in Hall.
    destruct (Hall (ki, vi)) as [Hki Hei];
      [apply list_elem_of_In; eapply list_elem_of_lookup_2; eassumption |].
    destruct (Hall (kj, vj)) as [Hkj Hej];
      [apply list_elem_of_In; eapply list_elem_of_lookup_2; eassumption |].
    unfold keyed in *. cbn [fst snd] in *.
    destruct (is_entry_key _ Hei) as [(a & b & c & Ha) | Ha]; [| congruence].
    destruct (is_entry_key _ Hej) as [(a' & b' & c' & Ha') | Ha']; [| congruence].
    exists (a, b, c), (a', b', c'). unfold version_tuple. rewrite Ha, Ha'.
    split; [reflexivity |]. split; [reflexivity |].
    unfold key_le in Hle. cbn [fst] in Hle.
    rewrite Ha in Hki. rewrite Ha' in Hkj. injection Hki as <-. injection Hkj as <-.
    now apply list_ltb_tuple.
Qed.

(** [get_versions], once the manifest is decoded, returns the kept
    entries in ascending order, or raises the [ValueError] of [int] on a
    kept entry. *)
Lemma get_versions_from_cases libc system machine stripped assets :
  (exists vs,
     get_versions_from libc system machine stripped assets = Ok vs /\
     Permutation vs (kept (norm_libc libc) (norm_system system) (norm_machine machine)
                          stripped assets) /\
     ascending vs) \/
  (get_versions_from libc system machine stripped assets = Raise ValueError /\
   exists info,
     In info (kept (norm_libc libc) (norm_system system) (norm_machine machine)
                   stripped assets) /\
     version_key info = Raise ValueError).
Proof.
  unfold get_versions_from. rewrite collect_kept. cbn [obind].
  apply sorted_cases, kept_is_entry.
Qed.

Lemma get_versions_from_Ok libc system machine stripped assets vs :
  get_versions_from libc system machine stripped assets = Ok vs ->
  Permutation vs (kept (norm_libc libc) (norm_system system) (norm_machine machine)
                       stripped assets) /\
  ascending vs.
Proof.
  intros H. destruct (get_versions_from_cases libc system machine stripped assets)
    as [(vs' & Hvs & Hp & Ha) | [Hr _]]; [| congruence].
  rewrite H in Hvs. injection Hvs as <-. auto.
Qed.

(** ** Uniqueness of the parts of a name *)

Lemma sep_split_unique (p : ascii -> bool) sep l l' r r' :
  p sep = false -> forallb p l = true -> forallb p l' = true ->
  l ++ sep :: r = l' ++ sep :: r' -> l = l' /\ r = r'.
Proof.
  intros Hsep. revert l'. induction l as [|a l IH]; intros [|b l'] Hl Hl' H; simpl in *.
  - injection H as ->. auto.
  - injection H as <- _. apply andb_prop in Hl' as [Hb _]. congruence.
  - injection H as -> _. apply andb_prop in Hl as [Ha _]. congruence.
  - injection H as -> H. apply andb_prop in Hl as [_ Hl], Hl' as [_ Hl'].
    destruct (IH _ Hl Hl' H) as [-> ->]. auto.
Qed.

Lemma line_end_unique t t' nl nl' :
  one_line t -> one_line t' -> at_end nl -> at_end nl' ->
  t ++ nl = t' ++ nl' -> t = t' /\ nl = nl'.
Proof.
  intros Ht Ht' [-> | ->] [-> | ->] H.
  - rewrite !app_nil_r in H. auto.
  - exfalso. rewrite app_nil_r in H. subst t.
    apply one_line_app in Ht as [_ Ht]. discriminate.
  - exfalso. rewrite app_nil_r in H. subst t'.
    apply one_line_app in Ht' as [_ Ht']. discriminate.
  - apply app_inj_tail in H as [H _]. auto.
Qed.

Lemma exp_parts_unique name v1 v2 v3 d a vd o t nl v1' v2' v3' d' a' vd' o' t' nl' :
  exp_parts name v1 v2 v3 d a vd o t nl ->
  exp_parts name v1' v2' v3' d' a' vd' o' t' nl' ->
  v1 = v1' /\ v2 = v2' /\ v3 = v3' /\ d = d' /\ a = a' /\ vd = vd' /\ o = o' /\
  t = t' /\ nl = nl'.
Proof.
  intros [Hn [_ H1] [_ H2] [_ H3] [_ Hd] [_ Ha] [_ Hvd] [_ Ho] Ht Hnl]
         [Hn' [_ H1'] [_ H2'] [_ H3'] [_ Hd'] [_ Ha'] [_ Hvd'] [_ Ho'] Ht' Hnl'].
  rewrite Hn in Hn'. apply app_inv_head in Hn'.
  change (chars ".") with ["."%char] in Hn'. change (chars "+") with ["+"%char] in Hn'.
  change (chars "-") with ["-"%char] in Hn'. cbn [app] in Hn'.
  apply (sep_split_unique is_digit) in Hn' as [<- Hn']; [|reflexivity|assumption..].
  apply (sep_split_unique is_digit) in Hn' as [<- Hn']; [|reflexivity|assumption..].
  apply (sep_split_unique is_digit) in Hn' as [<- Hn']; [|reflexivity|assumption..].
  apply (sep_split_unique is_digit) in Hn' as [<- Hn']; [|reflexivity|assumption..].
  apply (sep_split_unique (cc_mem (CNot "-"))) in Hn' as [<- Hn']; [|reflexivity|assumption..].
  apply (sep_split_unique (cc_mem (CNot "-"))) in Hn' as [<- Hn']; [|reflexivity|assumption..].
  apply (sep_split_unique (cc_mem (CNot "-"))) in Hn' as [<- Hn']; [|reflexivity|assumption..].
  apply line_end_unique in Hn' as [<- <-]; try assumption.
  repeat split.
Qed.

(** ** Completeness of the primary pattern *)

Lemma star_intro c bol t l g :
  forallb (cc_mem c) t = true ->
  In (MRes t l g) (match_all (Star c) bol (t ++ l) g).
Proof. intros. apply in_Star. simpl. auto. Qed.

Lemma exp_parts_sound name m :
  re_match exp name = Some m ->
  exists v1 v2 v3 d a vd o t nl,
    exp_parts name v1 v2 v3 d a vd o t nl /\
    groupdict exp m =
      exp_groups (version_of v1 v2 v3) (str d) (str a) (str vd) (str o) (str t).
Proof.
  intros H. apply exp_sound in H
    as (v1 & v2 & v3 & d & a & vd & o & t & nl & Hn & H1 & H2 & H3 & Hd & Ha & Hvd & Ho & Ht & Hnl & Hc).
  exists v1, v2, v3, d, a, vd, o, t, nl. split; [now split |].
  now apply groupdict_exp.
Qed.

Lemma exp_complete name v1 v2 v3 d a vd o t nl :
  exp_parts name v1 v2 v3 d a vd o t nl -> exists m, re_match exp name = Some m.
Proof.
  intros [Hn [? ?] [? ?] [? ?] [? ?] [? ?] [? ?] [? ?] Ht Hnl].
  eapply In_re_match. rewrite Hn. unfold exp. cbn [seqs].
  eapply seq_intro; [apply in_Bol; split; reflexivity |]. cbn [taken left caps].
  eapply seq_intro; [apply lit_intro |]. cbn [taken left caps].
  eapply seq_intro.
  { apply group_intro.
    eapply seq_intro; [apply plus_intro; eassumption |]. cbn [taken left caps].
    eapply seq_intro; [apply lit_intro |]. cbn [taken left caps].
    eapply seq_intro; [apply plus_intro; eassumption |]. cbn [taken left caps].
    eapply seq_intro; [apply lit_intro |]. cbn [taken left caps].
    apply plus_intro; eassumption. }
  cbn [taken left caps].
  eapply seq_intro; [apply lit_intro |]. cbn [taken left caps].
  eapply seq_intro; [apply group_intro, plus_intro; eassumption |]. cbn [taken left caps].
  eapply seq_intro; [apply lit_intro |]. cbn [taken left caps].
  eapply seq_intro; [apply group_intro, plus_intro; eassumption |]. cbn [taken left caps].
  eapply seq_intro; [apply lit_intro |]. cbn [taken left caps].
  eapply seq_intro; [apply group_intro, plus_intro; eassumption |]. cbn [taken left caps].
  eapply seq_intro; [apply lit_intro |]. cbn [taken left caps].
  eapply seq_intro; [apply group_intro, plus_intro; eassumption |]. cbn [taken left caps].
  eapply seq_intro; [apply lit_intro |]. cbn [taken left caps].
  eapply seq_intro; [apply group_intro, star_intro; eassumption |]. cbn [taken left caps].
  apply eol_intro, Hnl.
Qed.

Lemma token_no_hyphen l : token l -> no_hyphen l.
Proof. now intros [_ H]. Qed.

Lemma variant_spec t l v :
  match l with Some l => token l | None => True end -> token v ->
  chars t = opt_token l ++ v ++ chars ".tar.gz" ->
  exists tm, re_match variant_exp t = Some tm /\
             groupdict variant_exp tm = variant_groups (option_map str l) (str v).
Proof.
  intros Hl Hv Ht.
  assert (exists tm, re_match variant_exp t = Some tm) as [tm Htm].
  { destruct l as [l|]; cbn [opt_token] in Ht.
    - eapply (variant_complete1 t l v []); [assumption.. | now left |].
      rewrite Ht, <- !app_assoc, app_nil_r. reflexivity.
    - eapply (variant_complete0 t v []); [assumption | now left |].
      rewrite Ht, app_nil_r. reflexivity. }
  exists tm. split; [assumption |].
  destruct (variant_sound _ _ Htm) as (v' & nl' & Hv' & Hnl' & [[Hs Hc] | (l' & Hl' & Hs & Hc)]);
    rewrite Ht in Hs.
  - destruct l as [l|]; cbn [opt_token option_map] in *.
    + exfalso. rewrite <- !app_assoc in Hs. symmetry in Hs.
      change (chars "-" ++ v ++ chars ".tar.gz") with ("-"%char :: v ++ chars ".tar.gz") in Hs.
      refine (no_hyphen_not_split _ _ _ _ Hs).
      apply no_hyphen_app. split; [apply token_no_hyphen, Hv' |].
      apply no_hyphen_app. split; [reflexivity |]. destruct Hnl' as [-> | ->]; reflexivity.
    + rewrite app_nil_l in Hs.
      rewrite <- (app_nil_r (v ++ chars ".tar.gz")), <- app_assoc in Hs.
      apply at_end_unique in Hs as [<- _]; [| now left | assumption].
      now apply groupdict_variant0.
  - destruct l as [l|]; cbn [opt_token option_map] in *.
    + rewrite <- !app_assoc in Hs.
      change (chars "-" ++ ?x) with ("-"%char :: x) in Hs.
      apply hyphen_split_unique in Hs as [<- Hs];
        [| apply token_no_hyphen; assumption..].
      rewrite <- (app_nil_r (v ++ chars ".tar.gz")), <- app_assoc in Hs.
      apply at_end_unique in Hs as [<- _]; [| now left | assumption].
      now apply groupdict_variant1.
    + exfalso. rewrite app_nil_l in Hs.
      change (chars "-" ++ v' ++ chars ".tar.gz" ++ nl') with ("-"%char :: v' ++ chars ".tar.gz" ++ nl') in Hs.
      refine (no_hyphen_not_split _ _ _ _ Hs).
      apply no_hyphen_app. split; [apply token_no_hyphen, Hv | reflexivity].
Qed.

(** ** The parser as a function of the parts of a name *)

Lemma name_parts_exp name v1 v2 v3 d a vd o l v nl :
  name_parts name v1 v2 v3 d a vd o l v nl ->
  exp_parts name v1 v2 v3 d a vd o (opt_token l ++ v ++ chars ".tar.gz") nl.
Proof.
  intros [Hn H1 H2 H3 Hd Ha Hvd Ho Hl Hv Hvl Hnl]. split; try assumption.
  apply one_line_app. split.
  - destruct l as [l|]; [| reflexivity]. cbn [opt_token].
    apply one_line_app. split; [apply Hl | reflexivity].
  - apply one_line_app. split; [assumption | reflexivity].
Qed.

(** The parser, as a function of the parts of the name. *)
Lemma asset_entry_parts a v1 v2 v3 d ar vd o l v nl :
  name_parts (asset_name a) v1 v2 v3 d ar vd o l v nl ->
  forall libc system machine stripped,
    asset_entry libc system machine stripped a =
    parsed_entry libc system machine stripped (version_of v1 v2 v3) (str d)
      (str ar) (str vd) (str o) (option_map str l) (str v)
      (browser_download_url a).
Proof.
  intros Hp libc system machine stripped.
  pose proof (name_parts_exp _ _ _ _ _ _ _ _ _ _ _ Hp) as He.
  destruct (exp_complete _ _ _ _ _ _ _ _ _ _ He) as [m Hm].
  destruct (exp_parts_sound _ _ Hm)
    as (v1' & v2' & v3' & d' & a' & vd' & o' & t' & nl' & He' & Hg).
  destruct (exp_parts_unique _ _ _ _ _ _ _ _ _ _ _ _ _ _ _ _ _ _ _ He' He)
    as (-> & -> & -> & -> & -> & -> & -> & -> & ->).
  destruct (variant_spec (str (opt_token l ++ v ++ chars ".tar.gz")) l v)
    as (tm & Htm & Hgv).
  - destruct l; [apply (np_libc _ _ _ _ _ _ _ _ _ _ _ Hp) | exact I].
  - apply (np_variant _ _ _ _ _ _ _ _ _ _ _ Hp).
  - apply chars_str.
  - eapply asset_entry_parsed; eassumption.
Qed.

(** The names the parser accepts are those made of the parts. *)
Lemma asset_entry_no_parts a :
  (forall v1 v2 v3 d ar vd o l v nl,
      ~ name_parts (asset_name a) v1 v2 v3 d ar vd o l v nl) ->
  forall libc system machine stripped,
    asset_entry libc system machine stripped a = Ok None.
Proof.
  intros Hno. destruct (asset_entry_cases a)
    as [H | (v1 & v2 & v3 & d & ar & vd & o & l & v & nl & Hp & _)]; [exact H |].
  now apply Hno in Hp.
Qed.

(** ** The pattern of the tail *)

Lemma hyphens_app l r : hyphens (l ++ r) = (hyphens l + hyphens r)%nat.
Proof. induction l as [|a l IH]; simpl; [reflexivity | rewrite IH; lia]. Qed.

Lemma hyphens_no_hyphen l : no_hyphen l -> hyphens l = 0%nat.
Proof.
  unfold no_hyphen, hyphens. induction l as [|a l IH]; simpl; [reflexivity |].
  intros H. apply andb_prop in H as [Ha Hl].
  destruct (Ascii.eqb a "-"); [discriminate | now apply IH].
Qed.

Lemma variant_match_forms t tm :
  re_match variant_exp t = Some tm -> one_line (chars t) ->
  exists l v, opt_is_token l /\ token v /\
              chars t = opt_token l ++ v ++ chars ".tar.gz".
Proof.
  intros Htm Hline.
  destruct (variant_sound _ _ Htm) as (v & nl & Hv & Hnl & [[Hs _] | (l & Hl & Hs & _)]).
  - exists None, v. split; [exact I |]. split; [assumption |].
    rewrite Hs in Hline. rewrite app_assoc in Hline.
    apply one_line_end in Hline; [| assumption]. subst nl.
    now rewrite app_nil_r in Hs.
  - exists (Some l), v. split; [assumption |]. split; [assumption |].
    rewrite Hs in Hline. rewrite !app_assoc in Hline.
    apply one_line_end in Hline; [| assumption]. subst nl.
    rewrite app_nil_r in Hs. cbn [opt_token]. now rewrite <- !app_assoc.
Qed.

Lemma exp_tail_one_line name m t :
  re_match exp name = Some m -> groupdict exp m !! "tail" = Some (Some t) ->
  one_line (chars t).
Proof.
  intros Hm Ht.
  destruct (exp_parts_sound _ _ Hm)
    as (v1 & v2 & v3 & d & a & vd & o & t' & nl & He & Hg).
  rewrite Hg in Ht.
  change (exp_groups (version_of v1 v2 v3) (str d) (str a) (str vd) (str o) (str t') !! "tail")
    with (Some (Some (str t'))) in Ht.
  injection Ht as <-. rewrite chars_str. apply He.
Qed.

(** C10: the pattern of the tail accepts exactly the tails
    [<variant>.tar.gz] and [<libc>-<variant>.tar.gz], with [<libc>] and
    [<variant>] non-empty and free of hyphens; a tail with two or more
    hyphens, or one that does not end in [.tar.gz], is rejected; with one
    hyphen, the part before it is the group [libc] and the part after it
    the group [variant]. *)
Theorem C10_tail_pattern name m t :
  re_match exp name = Some m ->
  groupdict exp m !! "tail" = Some (Some t) ->
  (is_Some (re_match variant_exp t) <->
   exists l v, opt_is_token l /\ token v /\
               chars t = opt_token l ++ v ++ chars ".tar.gz") /\
  ((2 <= hyphens (chars t))%nat -> re_match variant_exp t = None) /\
  ((forall p, chars t <> p ++ chars ".tar.gz") -> re_match variant_exp t = None) /\
  (forall l v, token l -> token v ->
     chars t = l ++ chars "-" ++ v ++ chars ".tar.gz" ->
     exists tm, re_match variant_exp t = Some tm /\
                groupdict variant_exp tm !! "libc" = Some (Some (str l)) /\
                groupdict variant_exp tm !! "variant" = Some (Some (str v))) /\
  (forall v, token v -> chars t = v ++ chars ".tar.gz" ->
     exists tm, re_match variant_exp t = Some tm /\
                groupdict variant_exp tm !! "libc" = Some None /\
                groupdict variant_exp tm !! "variant" = Some (Some (str v))).
Proof.
  intros Hm Ht. pose proof (exp_tail_one_line _ _ _ Hm Ht) as Hline.
  assert (Hforms : forall tm, re_match variant_exp t = Some tm ->
            exists l v, opt_is_token l /\ token v /\
                        chars t = opt_token l ++ v ++ chars ".tar.gz").
  { intros tm Htm. eapply variant_match_forms; eassumption. }
  split; [| split; [| split; [| split]]].
  - split.
    + intros [tm Htm]. eapply Hforms, Htm.
    + intros (l & v & Hl & Hv & Hs).
      destruct (variant_spec t l v Hl Hv Hs) as (tm & -> & _). eauto.
  - intros Hh. destruct (re_match variant_exp t) as [tm|] eqn:Htm; [| reflexivity].
    exfalso. destruct (Hforms tm eq_refl) as (l & v & Hl & [_ Hv] & Hs).
    rewrite Hs, !hyphens_app in Hh.
    rewrite (hyphens_no_hyphen v Hv) in Hh.
    change (hyphens (chars ".tar.gz")) with 0%nat in Hh.
    destruct l as [l|]; cbn [opt_token] in Hh.
    + destruct Hl as [_ Hl]. rewrite hyphens_app, (hyphens_no_hyphen l Hl) in Hh.
      change (hyphens (chars "-")) with 1%nat in Hh. lia.
    + change (hyphens []) with 0%nat in Hh. lia.
  - intros Hno. destruct (re_match variant_exp t) as [tm|] eqn:Htm; [| reflexivity].
    exfalso. destruct (Hforms tm eq_refl) as (l & v & _ & _ & Hs).
    apply (Hno (opt_token l ++ v)). now rewrite <- app_assoc.
  - intros l v Hl Hv Hs.
    destruct (variant_spec t (Some l) v Hl Hv) as (tm & Htm & Hg).
    { cbn [opt_token]. now rewrite <- !app_assoc. }
    exists tm. split; [assumption |]. rewrite Hg. split; reflexivity.
  - intros v Hv Hs.
    destruct (variant_spec t None v I Hv Hs) as (tm & Htm & Hg).
    exists tm. split; [assumption |]. rewrite Hg. split; reflexivity.
Qed.

Lemma C10_tail_pattern_witness :
  re_match variant_exp "gnu-pgo_stripped-extra.tar.gz" = None /\
  re_match variant_exp "gnu-pgo_stripped.tar.zst" = None.
Proof.
  pose (name := "cpython-3.12.1+20240101-x86_64-unknown-linux-gnu-pgo_stripped-extra.tar.gz").
  pose (name2 := "cpython-3.12.1+20240101-x86_64-unknown-linux-gnu-pgo_stripped.tar.zst").
  destruct (re_match exp name) as [m|] eqn:Hm; [| vm_compute in Hm; discriminate].
  destruct (re_match exp name2) as [m2|] eqn:Hm2; [| vm_compute in Hm2; discriminate].
  assert (Ht : groupdict exp m !! "tail" = Some (Some "gnu-pgo_stripped-extra.tar.gz")).
  { vm_compute in Hm. injection Hm as <-. vm_compute. reflexivity. }
  assert (Ht2 : groupdict exp m2 !! "tail" = Some (Some "gnu-pgo_stripped.tar.zst")).
  { vm_compute in Hm2. injection Hm2 as <-. vm_compute. reflexivity. }
  destruct (C10_tail_pattern name m _ Hm Ht) as (_ & Hhyphens & _).
  destruct (C10_tail_pattern name2 m2 _ Hm2 Ht2) as (_ & _ & Hsuffix & _).
  split.
  - apply Hhyphens. vm_compute. lia.
  - apply Hsuffix. intros p Hp.
    apply (f_equal (@rev ascii)) in Hp. rewrite rev_app_distr in Hp.
    vm_compute in Hp. discriminate.
Defined.

(** ** What is kept, and what it holds *)

Lemma parsed_entry_Some libc system machine stripped version date arch vendor os l v url info :
  parsed_entry libc system machine stripped version date arch vendor os l v url
    = Ok (Some info) <->
  Some arch ∈ machine /\ Some os ∈ system /\ libc_ok libc l = true /\
  contains "stripped" (replace_char "_" " " v) = stripped /\
  info = entry version date arch vendor os (or_native l) (replace_char "_" " " v) url.
Proof.
  unfold parsed_entry, finish_entry, libc_ok.
  destruct (bool_decide_reflect (Some arch ∈ machine)) as [Ha | Ha]; cbn [negb];
    [| split; [discriminate | tauto]].
  destruct (bool_decide_reflect (Some os ∈ system)) as [Ho | Ho]; cbn [negb];
    [| split; [discriminate | tauto]].
  destruct libc as [libc|].
  - destruct (bool_decide (l ∈ libc)); cbn [negb];
      [| split; [discriminate | intros (_ & _ & [=] & _)]].
    destruct stripped, (contains "stripped" (replace_char "_" " " v)); cbn [negb andb];
      (split; [try discriminate; intros [= <-]; auto | intros (_ & _ & _ & H & ->); congruence]).
  - destruct stripped, (contains "stripped" (replace_char "_" " " v)); cbn [negb andb];
      (split; [try discriminate; intros [= <-]; auto | intros (_ & _ & _ & H & ->); congruence]).
Qed.

Lemma entry_lookup_version version date arch vendor os libc variant url :
  entry version date arch vendor os libc variant url !! "version" = Some version.
Proof. reflexivity. Qed.

Lemma entry_lookup_arch version date arch vendor os libc variant url :
  entry version date arch vendor os libc variant url !! "arch" = Some arch.
Proof. reflexivity. Qed.

Lemma entry_lookup_os version date arch vendor os libc variant url :
  entry version date arch vendor os libc variant url !! "os" = Some os.
Proof. reflexivity. Qed.

Lemma entry_lookup_libc version date arch vendor os libc variant url :
  entry version date arch vendor os libc variant url !! "libc" = Some libc.
Proof. reflexivity. Qed.

Lemma entry_lookup_variant version date arch vendor os libc variant url :
  entry version date arch vendor os libc variant url !! "variant" = Some variant.
Proof. reflexivity. Qed.

Lemma entry_lookup_vendor version date arch vendor os libc variant url :
  entry version date arch vendor os libc variant url !! "vendor" = Some vendor.
Proof. reflexivity. Qed.

Lemma entry_lookup_url version date arch vendor os libc variant url :
  entry version date arch vendor os libc variant url !! "url" = Some url.
Proof. reflexivity. Qed.

Lemma str_nonempty l : l <> [] -> String.eqb (str l) "" = false.
Proof. destruct l; [contradiction | reflexivity]. Qed.

Lemma or_native_token l :
  match l with Some l => token l | None => True end ->
  or_native (option_map str l) =
  match l with Some l => str l | None => "native" end.
Proof.
  destruct l as [l|]; [| reflexivity]. intros [Hne _]. cbn [option_map or_native].
  now rewrite str_nonempty.
Qed.

(** What [get_versions] returns holds the entries kept by the loop. *)
Lemma get_versions_from_In libc system machine stripped assets vs :
  get_versions_from libc system machine stripped assets = Ok vs ->
  forall info,
    In info vs <->
    exists a, In a assets /\
      asset_entry (norm_libc libc) (norm_system system) (norm_machine machine)
                  stripped a = Ok (Some info).
Proof.
  intros Hvs info.
  destruct (get_versions_from_Ok _ _ _ _ _ _ Hvs) as [Hp _].
  rewrite <- In_kept. split; intros H.
  - eapply Permutation_in; eassumption.
  - eapply Permutation_in; [apply Permutation_sym |]; eassumption.
Qed.

(** ** Two names through the parser *)

(** C3: the parser rejects the source tarball, whose name lacks the
    prefix, and parses the name of the stripped PGO build for Linux into
    version 3.12.1, arch x86_64, os linux, libc gnu and variant
    "pgo stripped", a variant that contains "stripped". *)
Theorem C3_parser_examples (url : string) :
  re_match exp src_tarball = None /\
  (forall libc system machine stripped,
      asset_entry libc system machine stripped (Asset src_tarball url) = Ok None) /\
  (forall libc system machine stripped,
      asset_entry libc system machine stripped (Asset pgo_stripped_gnu url) =
      parsed_entry libc system machine stripped
        "3.12.1" "20240101" "x86_64" "unknown" "linux" (Some "gnu") "pgo_stripped" url) /\
  exists info,
    get_versions_from {["gnu"]} {["linux"]} {["x86_64"]} true
      [Asset src_tarball url; Asset pgo_stripped_gnu url] = Ok [info] /\
    info !! "version" = Some "3.12.1" /\ info !! "arch" = Some "x86_64" /\
    info !! "os" = Some "linux" /\ info !! "libc" = Some "gnu" /\
    info !! "variant" = Some "pgo stripped" /\
    contains "stripped" "pgo stripped" = true.
Proof.
  assert (Hsrc : re_match exp src_tarball = None) by (vm_compute; reflexivity).
  split; [exact Hsrc |]. split; [| split].
  - intros. now apply asset_entry_no_exp.
  - intros. destruct (re_match exp pgo_stripped_gnu) as [m|] eqn:Hm;
      [| vm_compute in Hm; discriminate].
    destruct (re_match variant_exp "gnu-pgo_stripped.tar.gz") as [tm|] eqn:Htm;
      [| vm_compute in Htm; discriminate].
    apply (asset_entry_parsed _ _ _ _ (Asset pgo_stripped_gnu url) m tm
             "3.12.1" "20240101" "x86_64" "unknown" "linux" "gnu-pgo_stripped.tar.gz"
             (Some "gnu") "pgo_stripped").
    + exact Hm.
    + vm_compute in Hm. injection Hm as <-. (vm_compute; reflexivity).
    + exact Htm.
    + vm_compute in Htm. injection Htm as <-. vm_compute. reflexivity.
  - exists (entry "3.12.1" "20240101" "x86_64" "unknown" "linux" "gnu" "pgo stripped" url).
    split; [vm_compute; reflexivity |].
    rewrite entry_lookup_version, entry_lookup_arch, entry_lookup_os, entry_lookup_libc,
      entry_lookup_variant. (repeat split).
Qed.

(** ** The fields of an entry and the tables *)

(** C4, as the code has it: the arch and libc of a kept asset are the
    tokens of its name, unchanged (the tables translate the filters only);
    an asset with no libc token gets the libc "native". *)
Theorem C4_fields_verbatim libc system machine stripped a info :
  asset_entry libc system machine stripped a = Ok (Some info) ->
  exists v1 v2 v3 d ar vd o l v nl,
    name_parts (asset_name a) v1 v2 v3 d ar vd o l v nl /\
    Some (str ar) ∈ machine /\
    info !! "arch" = Some (str ar) /\
    info !! "libc" = Some (match l with Some l => str l | None => "native" end).
Proof.
  intros H.
  destruct (asset_entry_cases a)
    as [H0 | (v1 & v2 & v3 & d & ar & vd & o & l & v & nl & Hp & Hs)].
  - rewrite H0 in H. discriminate.
  - rewrite Hs in H. apply parsed_entry_Some in H as (Ha & _ & _ & _ & ->).
    exists v1, v2, v3, d, ar, vd, o, l, v, nl.
    split; [assumption |]. split; [assumption |].
    rewrite entry_lookup_arch, entry_lookup_libc. split; [reflexivity |].
    f_equal. apply or_native_token.
    destruct l; [apply (np_libc _ _ _ _ _ _ _ _ _ _ _ Hp) | exact I].
Qed.

Lemma C4_fields_verbatim_witness :
  exists info,
    asset_entry (norm_libc {["native"]}) (norm_system {["linux"]})
                (norm_machine {["amd64"]}) true glibc_asset = Ok (Some info) /\
    exists v1 v2 v3 d ar vd o l v nl,
      name_parts (asset_name glibc_asset) v1 v2 v3 d ar vd o l v nl /\
      Some (str ar) ∈ norm_machine {["amd64"]} /\
      info !! "arch" = Some (str ar) /\
      info !! "libc" = Some (match l with Some l => str l | None => "native" end).
Proof.
  exists (entry "3.12.1" "20240101" "x86_64" "unknown" "linux" "glibc" "pgo stripped" "u").
  assert (H : asset_entry (norm_libc {["native"]}) (norm_system {["linux"]})
                (norm_machine {["amd64"]}) true glibc_asset =
              Ok (Some (entry "3.12.1" "20240101" "x86_64" "unknown" "linux" "glibc"
                              "pgo stripped" "u")))
    by (vm_compute; reflexivity).
  split; [exact H |].
  exact (C4_fields_verbatim _ _ _ _ _ _ H).
Defined.

(** C4 as stated fails: a libc token [glibc] is returned as it is, not as
    [gnu], and an asset whose arch token is [amd64] is never returned. *)
Lemma C4_counterexample :
  libc_map !! "glibc" = Some (Some "gnu") /\
  machine_map !! "amd64" = Some "x86_64" /\
  get_versions_from {["native"]} {["linux"]} {["x86_64"]} true [glibc_asset] =
    Ok [entry "3.12.1" "20240101" "x86_64" "unknown" "linux" "glibc" "pgo stripped" "u"] /\
  entry "3.12.1" "20240101" "x86_64" "unknown" "linux" "glibc" "pgo stripped" "u"
    !! "libc" = Some "glibc" /\
  get_versions_from {["gnu"]} {["linux"]} {["amd64"]} true [amd64_asset] = Ok [] /\
  get_versions_from {["gnu"]} {["linux"]} {["x86_64"]} true [amd64_asset] = Ok [].
Proof.
  split; [reflexivity |]. split; [reflexivity |].
  split; [vm_compute; reflexivity |]. split; [reflexivity |].
  split; vm_compute; reflexivity.
Qed.

(** ** The libc filter *)

Lemma norm_libc_unfold F :
  norm_libc F =
  if decide (set_map (D := gset pyval) libc_norm F = {[None]}) then None
  else Some (set_map libc_norm F).
Proof. reflexivity. Qed.

Lemma norm_libc_None F :
  F <> ∅ -> (forall x, x ∈ F -> libc_norm x = None) -> norm_libc F = None.
Proof.
  intros Hne Hall. rewrite norm_libc_unfold. destruct (decide _) as [_ | Hn]; [reflexivity |].
  exfalso. apply Hn. apply set_eq. intros y. rewrite elem_of_map, elem_of_singleton. split.
  - intros (x & -> & Hx). now apply Hall.
  - intros ->. apply set_choose_L in Hne as [x Hx]. exists x. split; [| assumption].
    symmetry. now apply Hall.
Qed.

Lemma norm_libc_Some F x y :
  x ∈ F -> y ∈ F -> libc_norm x = None -> libc_norm y <> None ->
  norm_libc F = Some (set_map libc_norm F) /\
  None ∈ (set_map libc_norm F : gset pyval).
Proof.
  intros Hx Hy Hnx Hny. rewrite norm_libc_unfold. split.
  - destruct (decide _) as [He | _]; [| reflexivity]. exfalso. apply Hny.
    assert (libc_norm y ∈ (set_map libc_norm F : gset pyval)) as Hin
      by (apply elem_of_map; eauto).
    rewrite He in Hin. now apply elem_of_singleton in Hin.
  - apply elem_of_map. exists x. auto.
Qed.

(** An asset made of the parts is kept when it passes the four tests. *)
Lemma asset_entry_kept a v1 v2 v3 d ar vd o l v nl libc system machine stripped :
  name_parts (asset_name a) v1 v2 v3 d ar vd o l v nl ->
  Some (str ar) ∈ machine -> Some (str o) ∈ system ->
  libc_ok libc (option_map str l) = true ->
  contains "stripped" (replace_char "_" " " (str v)) = stripped ->
  asset_entry libc system machine stripped a =
  Ok (Some (entry (version_of v1 v2 v3) (str d) (str ar) (str vd) (str o)
                  (match l with Some l => str l | None => "native" end)
                  (replace_char "_" " " (str v)) (browser_download_url a))).
Proof.
  intros Hp Ha Ho Hl Hs. rewrite (asset_entry_parts _ _ _ _ _ _ _ _ _ _ _ Hp).
  apply parsed_entry_Some. repeat (split; [assumption |]).
  f_equal. symmetry. apply or_native_token.
  destruct l; [apply (np_libc _ _ _ _ _ _ _ _ _ _ _ Hp) | exact I].
Qed.

(** C5: when every element of the libc filter normalizes to [None], the
    filter is dropped: an asset is kept whatever its libc token is, as soon
    as it passes the tests on arch, os and stripped. *)
Theorem C5_no_constraint (F : gset string) :
  F <> ∅ -> (forall x, x ∈ F -> libc_norm x = None) ->
  norm_libc F = None /\
  forall a v1 v2 v3 d ar vd o l v nl system machine stripped,
    name_parts (asset_name a) v1 v2 v3 d ar vd o l v nl ->
    Some (str ar) ∈ machine -> Some (str o) ∈ system ->
    contains "stripped" (replace_char "_" " " (str v)) = stripped ->
    exists info,
      asset_entry (norm_libc F) system machine stripped a = Ok (Some info) /\
      info !! "libc" = Some (match l with Some l => str l | None => "native" end).
Proof.
  intros Hne Hall. pose proof (norm_libc_None F Hne Hall) as HF. split; [exact HF |].
  intros a v1 v2 v3 d ar vd o l v nl system machine stripped Hp Ha Ho Hs.
  eexists. split.
  - rewrite HF. eapply asset_entry_kept; try eassumption. reflexivity.
  - apply entry_lookup_libc.
Qed.

Lemma C5_no_constraint_witness :
  norm_libc {["native"; ""]} = None /\
  forall a v1 v2 v3 d ar vd o l v nl system machine stripped,
    name_parts (asset_name a) v1 v2 v3 d ar vd o l v nl ->
    Some (str ar) ∈ machine -> Some (str o) ∈ system ->
    contains "stripped" (replace_char "_" " " (str v)) = stripped ->
    exists info,
      asset_entry (norm_libc {["native"; ""]}) system machine stripped a = Ok (Some info) /\
      info !! "libc" = Some (match l with Some l => str l | None => "native" end).
Proof.
  apply (C5_no_constraint {["native"; ""]}).
  - apply (non_empty_inhabited_L "native"). set_solver.
  - intros x Hx. apply elem_of_union in Hx as [Hx | Hx];
      apply elem_of_singleton in Hx; subst x; reflexivity.
Defined.

(** An asset made of the parts is dropped when its libc fails the test. *)
Lemma asset_entry_libc_dropped a v1 v2 v3 d ar vd o l v nl libc system machine stripped :
  name_parts (asset_name a) v1 v2 v3 d ar vd o l v nl ->
  libc_ok libc (option_map str l) = false ->
  asset_entry libc system machine stripped a = Ok None.
Proof.
  intros Hp Hl. rewrite (asset_entry_parts _ _ _ _ _ _ _ _ _ _ _ Hp).
  destruct (parsed_entry_cases libc system machine stripped (version_of v1 v2 v3)
              (str d) (str ar) (str vd) (str o) (option_map str l) (str v)
              (browser_download_url a)) as [H | H]; [exact H |].
  apply parsed_entry_Some in H as (_ & _ & H & _). congruence.
Qed.

(** C9: when the libc filter holds an element that normalizes to [None]
    beside another token, the filter stays in force ([norm_libc] is a set,
    and an asset whose libc token is not in it is dropped), yet an asset
    with no libc token passes it, its libc [None] being in the set, and is
    returned with libc "native". *)
Theorem C9_native_among_others (F : gset string) (x y : string) :
  x ∈ F -> y ∈ F -> libc_norm x = None -> libc_norm y <> None ->
  exists S : gset pyval,
    norm_libc F = Some S /\ None ∈ S /\
    (forall a v1 v2 v3 d ar vd o v nl system machine stripped,
        name_parts (asset_name a) v1 v2 v3 d ar vd o None v nl ->
        Some (str ar) ∈ machine -> Some (str o) ∈ system ->
        contains "stripped" (replace_char "_" " " (str v)) = stripped ->
        exists info,
          asset_entry (norm_libc F) system machine stripped a = Ok (Some info) /\
          info !! "libc" = Some "native") /\
    (forall a v1 v2 v3 d ar vd o l v nl system machine stripped,
        name_parts (asset_name a) v1 v2 v3 d ar vd o (Some l) v nl ->
        Some (str l) ∉ S ->
        asset_entry (norm_libc F) system machine stripped a = Ok None).
Proof.
  intros Hx Hy Hnx Hny.
  destruct (norm_libc_Some F x y Hx Hy Hnx Hny) as [HF HN].
  exists (set_map libc_norm F). split; [exact HF |]. split; [exact HN |]. split.
  - intros a v1 v2 v3 d ar vd o v nl system machine stripped Hp Ha Ho Hs.
    eexists. split.
    + rewrite HF. eapply (asset_entry_kept a v1 v2 v3 d ar vd o None); try eassumption.
      cbn [libc_ok option_map]. now apply bool_decide_eq_true.
    + apply entry_lookup_libc.
  - intros a v1 v2 v3 d ar vd o l v nl system machine stripped Hp Hl.
    rewrite HF. eapply asset_entry_libc_dropped; [eassumption |].
    cbn [libc_ok option_map]. now apply bool_decide_eq_false.
Qed.

Lemma C9_native_among_others_witness :
  get_versions_from {["native"; "gnu"; "musl"]} {["darwin"]} {["arm64"]} true
    [darwin_asset] =
  Ok [entry "3.12.1" "20240101" "aarch64" "apple" "darwin" "native"
            "install only stripped" "u"] /\
  exists S : gset pyval,
    norm_libc {["native"; "gnu"; "musl"]} = Some S /\ None ∈ S /\
    (forall a v1 v2 v3 d ar vd o v nl system machine stripped,
        name_parts (asset_name a) v1 v2 v3 d ar vd o None v nl ->
        Some (str ar) ∈ machine -> Some (str o) ∈ system ->
        contains "stripped" (replace_char "_" " " (str v)) = stripped ->
        exists info,
          asset_entry (norm_libc {["native"; "gnu"; "musl"]}) system machine stripped a
            = Ok (Some info) /\
          info !! "libc" = Some "native") /\
    (forall a v1 v2 v3 d ar vd o l v nl system machine stripped,
        name_parts (asset_name a) v1 v2 v3 d ar vd o (Some l) v nl ->
        Some (str l) ∉ S ->
        asset_entry (norm_libc {["native"; "gnu"; "musl"]}) system machine stripped a
          = Ok None).
Proof.
  split; [vm_compute; reflexivity |].
  apply (C9_native_among_others {["native"; "gnu"; "musl"]} "native" "gnu").
  - set_solver.
  - set_solver.
  - reflexivity.
  - discriminate.
Defined.

(** ** The filters and the tables *)

Lemma norm_machine_arm64 : norm_machine {["arm64"]} = {[Some "aarch64"]}.
Proof.
  unfold norm_machine. rewrite set_map_singleton_L. reflexivity.
Qed.

Lemma norm_machine_aarch64 : norm_machine {["aarch64"]} = {[Some "aarch64"]}.
Proof.
  unfold norm_machine. rewrite set_map_singleton_L. reflexivity.
Qed.

Lemma norm_libc_musl : norm_libc {["musl"]} = Some {[Some "musl"]}.
Proof.
  rewrite norm_libc_unfold, set_map_singleton_L.
  destruct (decide _) as [H | _]; [| reflexivity].
  apply singleton_inj in H. discriminate.
Qed.

Lemma or_native_musl l : or_native l = "musl" <-> l = Some "musl".
Proof.
  split; [| now intros ->]. destruct l as [s|]; [| discriminate]. cbn [or_native].
  destruct (String.eqb s "") eqn:E; [discriminate | now intros ->].
Qed.

Lemma str_inj l1 l2 : str l1 = str l2 -> l1 = l2.
Proof. intros H. rewrite <- (chars_str l1), <- (chars_str l2). now rewrite H. Qed.

(** An entry kept under one arch filter is kept under another that holds
    its arch. *)
Lemma asset_entry_machine libc system machine machine' stripped a info arch :
  asset_entry libc system machine stripped a = Ok (Some info) ->
  info !! "arch" = Some arch -> Some arch ∈ machine' ->
  asset_entry libc system machine' stripped a = Ok (Some info).
Proof.
  intros H Harch Hin.
  destruct (asset_entry_cases a)
    as [H0 | (v1 & v2 & v3 & d & ar & vd & o & l & v & nl & Hp & Hs)].
  - rewrite H0 in H. discriminate.
  - rewrite Hs in *. apply parsed_entry_Some in H as (Ha & Ho & Hl & Hst & ->).
    rewrite entry_lookup_arch in Harch. injection Harch as <-.
    apply parsed_entry_Some. auto.
Qed.

Lemma asset_entry_arch_in libc system machine stripped a info :
  asset_entry libc system machine stripped a = Ok (Some info) ->
  exists arch, info !! "arch" = Some arch /\ Some arch ∈ machine.
Proof.
  intros H.
  destruct (asset_entry_cases a)
    as [H0 | (v1 & v2 & v3 & d & ar & vd & o & l & v & nl & Hp & Hs)].
  - rewrite H0 in H. discriminate.
  - rewrite Hs in *. apply parsed_entry_Some in H as (Ha & Ho & Hl & Hst & ->).
    rewrite entry_lookup_arch. eauto.
Qed.

(** Under the libc filter [{musl}], the entries kept are those the loop
    keeps with no libc filter and whose libc is musl. *)
Lemma asset_entry_musl system machine stripped a info :
  asset_entry (Some {[Some "musl"]}) system machine stripped a = Ok (Some info) <->
  asset_entry None system machine stripped a = Ok (Some info) /\
  info !! "libc" = Some "musl".
Proof.
  destruct (asset_entry_cases a)
    as [H0 | (v1 & v2 & v3 & d & ar & vd & o & l & v & nl & Hp & Hs)].
  - rewrite !H0. split; [discriminate | intros [[=] _]].
  - rewrite !Hs, !parsed_entry_Some. cbn [libc_ok]. split.
    + intros (Ha & Ho & Hl & Hst & ->). apply bool_decide_eq_true in Hl.
      apply elem_of_singleton in Hl. rewrite entry_lookup_libc, Hl. auto 10.
    + intros [(Ha & Ho & _ & Hst & ->) Hl]. rewrite entry_lookup_libc in Hl.
      injection Hl as Hl. apply or_native_musl in Hl.
      repeat (split; [assumption |]). split; [| split; [assumption | reflexivity]].
      apply bool_decide_eq_true, elem_of_singleton, Hl.
Qed.

(** C6: the filter sets go through the tables before they are compared.
    With the arch filter [{arm64}] the result holds exactly the entries of
    the manifest whose arch is aarch64 (whatever arch filter would keep
    them); with the libc filter [{musl}] it holds exactly those whose libc
    is musl, and of two assets that differ in libc only, gnu and musl, the
    musl one alone. *)
Theorem C6_filters_normalized :
  norm_machine {["arm64"]} = {[Some "aarch64"]} /\
  (forall libc system stripped assets vs,
      get_versions_from libc system {["arm64"]} stripped assets = Ok vs ->
      forall info,
        In info vs <->
        info !! "arch" = Some "aarch64" /\
        exists a machine, In a assets /\
          asset_entry (norm_libc libc) (norm_system system) machine stripped a
            = Ok (Some info)) /\
  (forall system machine stripped assets vs,
      get_versions_from {["musl"]} system machine stripped assets = Ok vs ->
      forall info,
        In info vs <->
        info !! "libc" = Some "musl" /\
        exists a, In a assets /\
          asset_entry None (norm_system system) (norm_machine machine) stripped a
            = Ok (Some info)) /\
  get_versions_from {["musl"]} {["linux"]} {["x86_64"]} true [gnu_asset; musl_asset] =
    Ok [entry "3.12.1" "20240101" "x86_64" "unknown" "linux" "musl" "pgo stripped"
              "musl-url"].
Proof.
  split; [exact norm_machine_arm64 |]. split; [| split].
  - intros libc system stripped assets vs Hvs info.
    rewrite (get_versions_from_In _ _ _ _ _ _ Hvs), norm_machine_arm64. split.
    + intros (a & Ha & He).
      destruct (asset_entry_arch_in _ _ _ _ _ _ He) as (arch & Harch & Hin).
      apply elem_of_singleton in Hin. injection Hin as ->. eauto.
    + intros (Harch & a & machine & Ha & He). exists a. split; [assumption |].
      eapply asset_entry_machine; [eassumption.. |]. now apply elem_of_singleton.
  - intros system machine stripped assets vs Hvs info.
    rewrite (get_versions_from_In _ _ _ _ _ _ Hvs), norm_libc_musl. split.
    + intros (a & Ha & He). apply asset_entry_musl in He as [He Hl]. eauto.
    + intros (Hl & a & Ha & He). exists a. split; [assumption |].
      apply asset_entry_musl. auto.
  - vm_compute. reflexivity.
Qed.

(** ** The order of the result *)

(** C7: whenever the resolver returns, what it returns is in ascending
    order of the version read as three integers: for entries at positions
    [i < j], the tuple of the first is at most the tuple of the second. *)
Theorem C7_ascending_versions libc system machine stripped :
  (forall assets vs,
      get_versions_from libc system machine stripped assets = Ok vs -> ascending vs) /\
  (forall CACHE_PATH RELEASES_URL uuid3_url json_assets w w' vs,
      get_versions CACHE_PATH RELEASES_URL uuid3_url json_assets
                   libc system machine stripped w = (w', Ok vs) ->
      ascending vs).
Proof.
  split.
  - intros assets vs H. now destruct (get_versions_from_Ok _ _ _ _ _ _ H).
  - intros CACHE_PATH RELEASES_URL uuid3_url json_assets w w' vs. unfold get_versions.
    destruct (fetch CACHE_PATH uuid3_url RELEASES_URL (3600 * 4) w) as [w1 [release | e]];
      cbn [obind]; [| discriminate].
    destruct (json_assets release) as [assets | e]; cbn [obind]; [| discriminate].
    intros [= _ H]. now destruct (get_versions_from_Ok _ _ _ _ _ _ H).
Qed.

Lemma C7_ascending_versions_witness :
  get_versions_from {["gnu"]} {["linux"]} {["x86_64"]} true [gnu_asset; older_asset] =
    Ok [entry "3.9.18" "20240101" "x86_64" "unknown" "linux" "gnu" "pgo stripped" "older-url";
        entry "3.12.1" "20240101" "x86_64" "unknown" "linux" "gnu" "pgo stripped" "gnu-url"] /\
  ascending
    [entry "3.9.18" "20240101" "x86_64" "unknown" "linux" "gnu" "pgo stripped" "older-url";
     entry "3.12.1" "20240101" "x86_64" "unknown" "linux" "gnu" "pgo stripped" "gnu-url"].
Proof.
  assert (H : get_versions_from {["gnu"]} {["linux"]} {["x86_64"]} true
                [gnu_asset; older_asset] =
    Ok [entry "3.9.18" "20240101" "x86_64" "unknown" "linux" "gnu" "pgo stripped" "older-url";
        entry "3.12.1" "20240101" "x86_64" "unknown" "linux" "gnu" "pgo stripped" "gnu-url"])
    by (vm_compute; reflexivity).
  split; [exact H |].
  exact (proj1 (C7_ascending_versions {["gnu"]} {["linux"]} {["x86_64"]} true) _ _ H).
Defined.

(** ** [fetch] *)

Section Fetch.

Variable CACHE_PATH : string.
Variable uuid3_url : string -> string.

Lemma fetch_fresh url cache w f :
  files w !! cache_path CACHE_PATH uuid3_url url = Some f ->
  cache_fresh CACHE_PATH uuid3_url url cache w = true ->
  fetch CACHE_PATH uuid3_url url cache w =
  (mkdir (cache_dir CACHE_PATH uuid3_url url) w, Ok (content f)).
Proof.
  intros Hf Hfresh. unfold fetch.
  change (cache_fresh CACHE_PATH uuid3_url url cache
            (mkdir (cache_dir CACHE_PATH uuid3_url url) w))
    with (cache_fresh CACHE_PATH uuid3_url url cache w).
  rewrite Hfresh. cbn [negb]. cbn [files mkdir]. now rewrite Hf.
Qed.

Lemma fetch_stale url cache w :
  cache_fresh CACHE_PATH uuid3_url url cache w = false ->
  fetch CACHE_PATH uuid3_url url cache w =
  match net w url with
  | Refused => (requested (cache_dir CACHE_PATH uuid3_url url) url w, Raise URLError)
  | Body chunks complete =>
      (set_files (<[cache_path CACHE_PATH uuid3_url url :=
                     File (concat_str chunks) (clock w)]>)
                 (requested (cache_dir CACHE_PATH uuid3_url url) url w),
       if complete then Ok (concat_str chunks) else Raise ReadFailed)
  end.
Proof.
  intros Hstale. unfold fetch.
  change (cache_fresh CACHE_PATH uuid3_url url cache
            (mkdir (cache_dir CACHE_PATH uuid3_url url) w))
    with (cache_fresh CACHE_PATH uuid3_url url cache w).
  rewrite Hstale. cbn [negb]. cbn [net request logging mkdir clock].
  destruct (net w url) as [| chunks complete]; [reflexivity |].
  destruct complete; [| reflexivity].
  cbn [files set_files request logging mkdir].
  rewrite lookup_insert_eq. reflexivity.
Qed.

(** C2: a cached file whose modification time is exactly [now - maxAge]
    is stale: the URL is requested and the file is rewritten with what
    arrives; one whose modification time is above [now - maxAge] is fresh:
    its bytes are returned, nothing is requested and no file changes. *)
Theorem C2_freshness_boundary url cache w f :
  files w !! cache_path CACHE_PATH uuid3_url url = Some f ->
  (mtime f = clock w - cache ->
   requests (fst (fetch CACHE_PATH uuid3_url url cache w)) = requests w ++ [url] /\
   forall chunks complete, net w url = Body chunks complete ->
     files (fst (fetch CACHE_PATH uuid3_url url cache w))
       !! cache_path CACHE_PATH uuid3_url url
     = Some (File (concat_str chunks) (clock w))) /\
  (mtime f > clock w - cache ->
   snd (fetch CACHE_PATH uuid3_url url cache w) = Ok (content f) /\
   requests (fst (fetch CACHE_PATH uuid3_url url cache w)) = requests w /\
   files (fst (fetch CACHE_PATH uuid3_url url cache w)) = files w).
Proof.
  intros Hf. split.
  - intros Hm. rewrite fetch_stale.
    2: { unfold cache_fresh. rewrite Hf, Z.gtb_ltb. apply Z.ltb_ge. lia. }
    destruct (net w url) as [| chunks complete] eqn:Hnet; cbn [fst].
    + split; [reflexivity |]. discriminate.
    + split; [reflexivity |]. intros ? ? [= <- <-].
      cbn [files set_files requested request logging mkdir]. apply lookup_insert_eq.
  - intros Hm. rewrite (fetch_fresh url cache w f Hf).
    2: { unfold cache_fresh. rewrite Hf, Z.gtb_ltb. apply Z.ltb_lt. lia. }
    repeat split.
Qed.

End Fetch.

Lemma C2_freshness_boundary_witness :
  (requests (fst (fetch "/c" toy_uuid "u" 100 (toy_world 900 (Body ["new"] true))))
     = ["u"] /\
   (fst (fetch "/c" toy_uuid "u" 100 (toy_world 900 (Body ["new"] true)))).(files)
     !! toy_path = Some (File "new" 1000)) /\
  (snd (fetch "/c" toy_uuid "u" 100 (toy_world 901 (Body ["new"] true))) = Ok "old" /\
   requests (fst (fetch "/c" toy_uuid "u" 100 (toy_world 901 (Body ["new"] true)))) = [] /\
   files (fst (fetch "/c" toy_uuid "u" 100 (toy_world 901 (Body ["new"] true))))
     = files (toy_world 901 (Body ["new"] true))).
Proof.
  split.
  - destruct (C2_freshness_boundary "/c" toy_uuid "u" 100
                (toy_world 900 (Body ["new"] true)) (File "old" 900)) as [Hstale _].
    { vm_compute. reflexivity. }
    destruct Hstale as [Hreq Hfile]; [reflexivity |]. split; [exact Hreq |].
    apply (Hfile ["new"] true). reflexivity.
  - destruct (C2_freshness_boundary "/c" toy_uuid "u" 100
                (toy_world 901 (Body ["new"] true)) (File "old" 901)) as [_ Hfresh].
    { vm_compute. reflexivity. }
    apply Hfresh. reflexivity.
Defined.

(** C1, as the code has it: [fetch] opens the cache file itself for
    writing, which empties it, and copies the response into it block by
    block; there is no temporary file and no rename. When [urlopen]
    raises, no file changes; when a read of the body raises, the cache
    path holds the blocks read before it (no byte when the first read
    raises) in place of the bytes cached before; when the body ends, it
    holds the blocks read, which are returned. *)
Theorem C1_written_in_place CACHE_PATH uuid3_url url cache w :
  cache_fresh CACHE_PATH uuid3_url url cache w = false ->
  receivable (net w url) = true ->
  match net w url with
  | Refused =>
      snd (fetch CACHE_PATH uuid3_url url cache w) = Raise URLError /\
      files (fst (fetch CACHE_PATH uuid3_url url cache w)) = files w
  | Body blocks complete =>
      snd (fetch CACHE_PATH uuid3_url url cache w)
        = (if complete then Ok (concat_str blocks) else Raise ReadFailed) /\
      files (fst (fetch CACHE_PATH uuid3_url url cache w))
        = <[cache_path CACHE_PATH uuid3_url url := File (concat_str blocks) (clock w)]>
            (files w)
  end.
Proof.
  intros Hstale _. rewrite fetch_stale by assumption.
  destruct (net w url) as [| blocks complete]; split; reflexivity.
Qed.

Lemma C1_written_in_place_witness :
  snd (fetch "/c" toy_uuid "u" 100 (toy_world 0 (Body [full_block] false)))
    = Raise ReadFailed /\
  files (fst (fetch "/c" toy_uuid "u" 100 (toy_world 0 (Body [full_block] false))))
    = <[toy_path := File (concat_str [full_block]) 1000]>
        (files (toy_world 0 (Body [full_block] false))).
Proof.
  apply (C1_written_in_place "/c" toy_uuid "u" 100 (toy_world 0 (Body [full_block] false))).
  - vm_compute. reflexivity.
  - vm_compute. reflexivity.
Defined.

(** C1 as stated fails: when the first read of the body raises, the
    stale copy is gone and an empty file is at the cache path; when a
    later read raises, the blocks read so far are there. *)
Lemma C1_counterexample :
  receivable (Body [] false) = true /\
  files (toy_world 0 (Body [] false)) !! toy_path = Some (File "old" 0) /\
  snd (fetch "/c" toy_uuid "u" 100 (toy_world 0 (Body [] false)))
    = Raise ReadFailed /\
  files (fst (fetch "/c" toy_uuid "u" 100 (toy_world 0 (Body [] false))))
    !! toy_path = Some (File "" 1000).
Proof.
  split; [reflexivity |]. split; [vm_compute; reflexivity |].
  split; vm_compute; reflexivity.
Qed.

(** ** [python_install_parser] *)

Lemma filter_version_ok version vs :
  Forall is_entry vs -> filter_version version vs = Ok (survivors version vs).
Proof.
  induction 1 as [|item vs Hi Hvs IH]; cbn [filter_version survivors List.filter];
    [reflexivity |].
  destruct Hi as (v1 & v2 & v3 & date & arch & vendor & os & libc & variant & url & _ & _ & _ & ->).
  rewrite entry_lookup_version. cbn [as_str obind]. rewrite IH. cbn [obind].
  fold (survivors version vs). now destruct (String.eqb _ _).
Qed.

Lemma fetch_dirs CACHE_PATH uuid3_url url cache w :
  dirs (fst (fetch CACHE_PATH uuid3_url url cache w)) =
  {[cache_dir CACHE_PATH uuid3_url url]} ∪ dirs w.
Proof.
  destruct (cache_fresh CACHE_PATH uuid3_url url cache w) eqn:E.
  - pose proof E as E'. unfold cache_fresh in E'.
    destruct (files w !! cache_path CACHE_PATH uuid3_url url) as [f|] eqn:Hf;
      [| discriminate].
    now rewrite (fetch_fresh _ _ _ _ _ f Hf E).
  - rewrite fetch_stale by assumption. now destruct (net w url).
Qed.

Lemma fetch_requests CACHE_PATH uuid3_url url cache w u :
  In u (requests (fst (fetch CACHE_PATH uuid3_url url cache w))) ->
  In u (requests w) \/ u = url.
Proof.
  destruct (cache_fresh CACHE_PATH uuid3_url url cache w) eqn:E.
  - pose proof E as E'. unfold cache_fresh in E'.
    destruct (files w !! cache_path CACHE_PATH uuid3_url url) as [f|] eqn:Hf;
      [| discriminate].
    rewrite (fetch_fresh _ _ _ _ _ f Hf E). cbn. auto.
  - rewrite fetch_stale by assumption.
    destruct (net w url); cbn [fst requests requested request set_files];
      rewrite in_app_iff; cbn [In]; intuition.
Qed.

Lemma fetch_other_files CACHE_PATH uuid3_url url cache w p :
  p <> cache_path CACHE_PATH uuid3_url url ->
  files (fst (fetch CACHE_PATH uuid3_url url cache w)) !! p = files w !! p.
Proof.
  intros Hp. destruct (cache_fresh CACHE_PATH uuid3_url url cache w) eqn:E.
  - pose proof E as E'. unfold cache_fresh in E'.
    destruct (files w !! cache_path CACHE_PATH uuid3_url url) as [f|] eqn:Hf;
      [| discriminate].
    now rewrite (fetch_fresh _ _ _ _ _ f Hf E).
  - rewrite fetch_stale by assumption.
    destruct (net w url); cbn [fst files requested request logging mkdir set_files];
      [reflexivity |].
    now rewrite lookup_insert_ne.
Qed.

Lemma get_versions_inv CACHE_PATH RELEASES_URL uuid3_url json_assets
    libc system machine stripped w w1 vs :
  get_versions CACHE_PATH RELEASES_URL uuid3_url json_assets
               libc system machine stripped w = (w1, Ok vs) ->
  w1 = fst (fetch CACHE_PATH uuid3_url RELEASES_URL (3600 * 4) w) /\
  Forall is_entry vs.
Proof.
  unfold get_versions.
  destruct (fetch CACHE_PATH uuid3_url RELEASES_URL (3600 * 4) w) as [w' [release | e]];
    cbn [obind fst]; [| discriminate].
  destruct (json_assets release) as [assets | e]; cbn [obind]; [| discriminate].
  intros [= <- H]. split; [reflexivity |].
  destruct (get_versions_from_Ok _ _ _ _ _ _ H) as [Hp _].
  apply (Permutation_Forall (Permutation_sym Hp)), kept_is_entry.
Qed.

(** C8: when the versions left by the exact version are not exactly one,
    the install reports it and returns 1, and the world is the one the
    resolver left, with one more log record: no directory beyond the cache
    directory of the manifest, no request beyond the one for the manifest,
    no file beyond the cached manifest. None left is reported as
    [NoVersionsFound], several as [MultipleVersionsFound] with all their
    URLs. *)
Theorem C8_install_needs_one CACHE_PATH VERSIONS_PATH RELEASES_URL uuid3_url
    platform_system json_assets tar_members json_dumps args w w1 vs :
  get_versions CACHE_PATH RELEASES_URL uuid3_url json_assets
    {[arg_libc args]} {[platform_system]} {[arg_arch args]}
    (negb (non_stripped args)) w = (w1, Ok vs) ->
  length (survivors (arg_version args) vs) <> 1%nat ->
  exists r,
    python_install_parser CACHE_PATH VERSIONS_PATH RELEASES_URL uuid3_url
      platform_system json_assets tar_members json_dumps args w
      = (logging r w1, Ok 1) /\
    (survivors (arg_version args) vs = [] -> r = NoVersionsFound) /\
    ((2 <= length (survivors (arg_version args) vs))%nat ->
     r = MultipleVersionsFound (urls (survivors (arg_version args) vs))) /\
    dirs (logging r w1) = {[cache_dir CACHE_PATH uuid3_url RELEASES_URL]} ∪ dirs w /\
    (forall u, In u (requests (logging r w1)) -> In u (requests w) \/ u = RELEASES_URL) /\
    (forall p, p <> cache_path CACHE_PATH uuid3_url RELEASES_URL ->
               files (logging r w1) !! p = files w !! p).
Proof.
  intros Hgv Hlen. destruct (get_versions_inv _ _ _ _ _ _ _ _ _ _ _ Hgv) as [Hw1 Hvs].
  assert (Hworld : forall r,
    dirs (logging r w1) = {[cache_dir CACHE_PATH uuid3_url RELEASES_URL]} ∪ dirs w /\
    (forall u, In u (requests (logging r w1)) -> In u (requests w) \/ u = RELEASES_URL) /\
    (forall p, p <> cache_path CACHE_PATH uuid3_url RELEASES_URL ->
               files (logging r w1) !! p = files w !! p)).
  { intros r. cbn [dirs requests files logging]. subst w1. split; [apply fetch_dirs |].
    split; [apply fetch_requests | apply fetch_other_files]. }
  unfold python_install_parser. rewrite Hgv. cbn [obind].
  rewrite (filter_version_ok _ _ Hvs).
  destruct (survivors (arg_version args) vs) as [| v [| v' rest]] eqn:Hs.
  - exists NoVersionsFound. split; [reflexivity |]. split; [reflexivity |].
    split; [cbn [length]; lia |]. apply Hworld.
  - cbn [length] in Hlen. lia.
  - eexists. split; [reflexivity |]. split; [discriminate |].
    split; [reflexivity |]. apply Hworld.
Qed.

Lemma C8_install_needs_one_witness :
  exists r,
    python_install_parser "/c" "/v" "manifest" toy_uuid "linux" toy_json toy_tar
      toy_dumps toy_args toy_start = (logging r toy_resolved, Ok 1) /\
    r = MultipleVersionsFound ["url-a"; "url-b"] /\
    dirs (logging r toy_resolved)
      = {[cache_dir "/c" toy_uuid "manifest"]} ∪ dirs toy_start /\
    (forall u, In u (requests (logging r toy_resolved)) ->
               In u (requests toy_start) \/ u = "manifest").
Proof.
  assert (Hgv : get_versions "/c" "manifest" toy_uuid toy_json {[arg_libc toy_args]}
                  {["linux"]} {[arg_arch toy_args]} (negb (non_stripped toy_args))
                  toy_start = (toy_resolved, Ok toy_versions))
    by (vm_compute; reflexivity).
  assert (Hvs : survivors (arg_version toy_args) toy_versions = toy_versions)
    by (vm_compute; reflexivity).
  destruct (C8_install_needs_one "/c" "/v" "manifest" toy_uuid "linux" toy_json toy_tar
              toy_dumps toy_args toy_start toy_resolved toy_versions Hgv)
    as (r & Hr & _ & Hmany & Hd & Hq & _).
  { rewrite Hvs. cbn [length toy_versions]. lia. }
  exists r. split; [exact Hr |]. split; [| split; assumption].
  rewrite Hmany by (rewrite Hvs; cbn [length toy_versions]; lia).
  rewrite Hvs. reflexivity.
Defined.

(** * Further properties *)

(** ** The parser and the patterns *)








(** ** The resolver *)








(** ** A cached copy *)



(** ** The install of one version *)

Section Install.

Variable CACHE_PATH VERSIONS_PATH RELEASES_URL : string.
Variable uuid3_url : string -> string.
Variable platform_system : string.
Variable json_assets : string -> outcome (list asset).
Variable tar_members : string -> outcome (list (string * option string)).
Variable json_dumps : gmap string string -> string.





End Install.



Example install_toy_succeeds :
  snd (python_install_parser "/c" "/v" "manifest" toy_uuid "linux" toy_json1 toy_tar1
         toy_dumps toy_args toy_start) = Ok 0.
Proof. vm_compute. reflexivity. Qed.
